(** * Live match-state synchronisation server: model and properties

    The repository holds several revisions of one socket.io server.  Three
    of them carry the logic studied here:
    - [Patch]    index.js, second revision : [deepDiffOps], score extraction,
                 append detection for the wagon sequence ([Relay] is the first
                 revision of index.js, which has the same read routes and
                 [join] handler and broadcasts the whole document on every
                 publish);
    - [Batch]    part_000 : [diffObjects], [scheduleUpdate] and the 500 ms
                 bulk flush;
    - [Snapshot] part_001 : whole-field comparison with [JSON.stringify] and
                 the same bulk flush ([Coalescer] holds what the two share).

    Modelling conventions.
    - A JavaScript value that reaches a handler was decoded from the wire, so
      it is a JSON tree: [value].  [undefined] never occurs inside such a
      tree; a JavaScript expression that may be [undefined] has type
      [option value] and [None] stands for [undefined].  Numeric leaves are
      integers.  A string is a sequence of UTF-16 code units below 256, one
      character of the Rocq string for each code unit.
    - An object is the table of its own enumerable properties in
      [Object.keys] order: integer-like keys first, in ascending order, then
      the other keys in the order of their creation; [assign] keeps that
      order.  A decoded object inherits from [Object.prototype].  A read
      [obj[key]] with a computed key follows the prototype chain ([getProp]):
      what it can reach besides JSON trees is [Object.prototype] itself and
      its function-valued members, the other cases of [jsval].  A write
      [obj[key] = v] with a computed key is [setProp]: the key [__proto__]
      creates no property.  The reads [x.userId], [x.matchData],
      [x.overlays], [x.wagonData] and [x.score] are reads of own properties
      ([own]), since no prototype of the standard library defines one of
      these five names.  [state] is created with [Object.create(null)], it
      has own properties only and is a finite map.
    - [JSON.stringify a !== JSON.stringify b] is modelled as inequality of the
      two trees (same shape, same property order): JSON text determines the
      tree it was printed from.
    - [a !== b] on values of which one comes from the payload being handled
      is [strict_eqb]: equal primitives are identical, an array or an object
      of a fresh payload is identical to nothing that was stored before.
    - The clock ([new Date()], [Date.now()]) is an argument [now] of every
      handler.  A handler ends in one of three ways ([outcome]): it returns,
      it throws a [TypeError], or it leaves what is modelled here. *)

From Stdlib Require Import ZArith NArith Ascii String List Bool Arith Lia DecimalString DecimalNat.
From stdpp Require Import base option list strings gmap.

Local Open Scope string_scope.
Local Open Scope list_scope.

(** ** JSON values *)

#[local] Set Warnings "-register-all".

Inductive value : Type :=
| VNull
| VBool (b : bool)
| VNum (n : Z)
| VStr (s : string)
| VArr (items : list value)
| VObj (props : list (string * value)).

Definition timestamp := Z.

(** Nesting depth, the budget of the recursive differs. *)
Fixpoint depth (v : value) : nat :=
  match v with
  | VArr items =>
      S ((fix go (l : list value) : nat :=
            match l with
            | [] => 0
            | x :: r => Nat.max (depth x) (go r)
            end) items)
  | VObj props =>
      S ((fix go (l : list (string * value)) : nat :=
            match l with
            | [] => 0
            | (_, x) :: r => Nat.max (depth x) (go r)
            end) props)
  | _ => 0
  end.

(** Equality of the JSON texts of two trees. *)
Fixpoint value_eqb (a b : value) : bool :=
  match a, b with
  | VNull, VNull => true
  | VBool x, VBool y => Bool.eqb x y
  | VNum x, VNum y => Z.eqb x y
  | VStr x, VStr y => String.eqb x y
  | VArr xs, VArr ys =>
      (fix go (l1 l2 : list value) : bool :=
         match l1, l2 with
         | [], [] => true
         | x :: r1, y :: r2 => value_eqb x y && go r1 r2
         | _, _ => false
         end) xs ys
  | VObj xs, VObj ys =>
      (fix go (l1 l2 : list (string * value)) : bool :=
         match l1, l2 with
         | [], [] => true
         | (k1, x) :: r1, (k2, y) :: r2 =>
             String.eqb k1 k2 && value_eqb x y && go r1 r2
         | _, _ => false
         end) xs ys
  | _, _ => false
  end.

(** What a computed property read can give: a JSON tree, [Object.prototype]
    or one of the functions [Object.prototype] holds ([Method "constructor"]
    is [Object], [Method "toString"] is [Object.prototype.toString], ...). *)
Inductive jsval : Type :=
| Json (v : value)
| ObjectPrototype
| Method (name : string).

Definition jdepth (v : jsval) : nat :=
  match v with Json x => depth x | _ => 0 end.

(** The tree of the text [JSON.stringify v] prints; [None] when it prints
    nothing: [JSON.stringify] of [undefined] and of a function is
    [undefined], [Object.prototype] has no enumerable property and is printed
    as an empty object.  The serialiser of socket.io prints a member of an
    emitted payload the same way: a member whose value is [undefined] or a
    function is left out. *)
Definition stringify (v : option jsval) : option value :=
  match v with
  | Some (Json x) => Some x
  | Some ObjectPrototype => Some (VObj [])
  | Some (Method _) => None
  | None => None
  end.

(** Equality of two texts of [JSON.stringify], each given by its tree. *)
Definition stringify_eqb (a b : option value) : bool :=
  match a, b with
  | None, None => true
  | Some x, Some y => value_eqb x y
  | _, _ => false
  end.

(** [a === b] on JSON values of which at least one belongs to a freshly
    decoded payload. *)
Definition strict_eqb (a b : option value) : bool :=
  match a, b with
  | None, None => true
  | Some VNull, Some VNull => true
  | Some (VBool x), Some (VBool y) => Bool.eqb x y
  | Some (VNum x), Some (VNum y) => Z.eqb x y
  | Some (VStr x), Some (VStr y) => String.eqb x y
  | _, _ => false
  end.

(** JavaScript truthiness: [null], [false], [0], [""] and [undefined] are
    falsy. *)
Definition truthy (v : option value) : bool :=
  match v with
  | None | Some VNull | Some (VBool false) | Some (VNum 0%Z) | Some (VStr "") => false
  | _ => true
  end.

(** Objects and functions of the standard library are truthy. *)
Definition truthy_js (v : jsval) : bool :=
  match v with Json x => truthy (Some x) | _ => true end.

(** [Object.prototype.toString.call v === '[object Object]']: a function
    gives ['[object Function]']. *)
Definition isPlainObject (v : option jsval) : bool :=
  match v with
  | Some (Json (VObj _)) | Some ObjectPrototype => true
  | _ => false
  end.

(** A JSON value that is a mapping: [isPlainObject] on a JSON value. *)
Definition mapping (v : option value) : bool :=
  match v with Some (VObj _) => true | _ => false end.

(** [typeof v === "object" && v !== null] *)
Definition isObjectLike (v : option value) : bool :=
  match v with Some (VArr _) | Some (VObj _) => true | _ => false end.

(** Result of running a handler or one of its helpers. *)
Inductive outcome (A : Type) : Type :=
| Done (a : A)
| Throw (msg : string)
| Beyond.
Arguments Done {A} a.
Arguments Throw {A} msg.
Arguments Beyond {A}.

Definition bind {A B : Type} (o : outcome A) (f : A -> outcome B) : outcome B :=
  match o with
  | Done a => f a
  | Throw msg => Throw msg
  | Beyond => Beyond
  end.

Notation "'let*' x ':=' o 'in' k" := (bind o (fun x => k))
  (at level 10, x name, o at level 100, k at level 200).

(** A loop whose body may throw: the body [f] is run on the elements of [l]
    in order, from the state [start], until one run does not return. *)
Definition each {A B : Type} (f : B -> A -> outcome B) (l : list A) (start : B)
  : outcome B :=
  fold_left (fun acc x => let* b := acc in f b x) l (Done start).

(** ** Property tables *)

(** First binding of [k] in a table; [A] is [value] for the properties of an
    object. *)
Fixpoint assoc {A : Type} (k : string) (kvs : list (string * A)) : option A :=
  match kvs with
  | [] => None
  | (k', v) :: r => if String.eqb k k' then Some v else assoc k r
  end.

Definition is_digit (c : ascii) : bool :=
  let n := nat_of_ascii c in (Nat.leb 48 n && Nat.leb n 57)%bool.

Fixpoint digits_value (acc : N) (s : string) : option N :=
  match s with
  | EmptyString => Some acc
  | String c r =>
      if is_digit c then digits_value (acc * 10 + (N_of_ascii c - 48))%N r else None
  end.

(** The array index a property key spells: a canonical numeral below
    [2^32 - 1]. *)
Definition array_index (k : string) : option N :=
  match k with
  | EmptyString => None
  | String "0" (String _ _) => None
  | _ =>
      match digits_value 0%N k with
      | Some n => if (n <? 4294967295)%N then Some n else None
      | None => None
      end
  end.

(** The place of a new key [k] is before [k']: integer-like keys come first,
    in ascending order. *)
Definition comes_before (k k' : string) : bool :=
  match array_index k, array_index k' with
  | Some i, Some j => (i <? j)%N
  | Some _, None => true
  | None, _ => false
  end.

(** A property the table has is given the value [v] where it is. *)
Fixpoint replace_key {A : Type} (k : string) (v : A) (kvs : list (string * A))
  : list (string * A) :=
  match kvs with
  | [] => []
  | (k', v') :: r =>
      if String.eqb k k' then (k', v) :: r else (k', v') :: replace_key k v r
  end.

(** A property the table does not have is created at its place. *)
Fixpoint insert_key {A : Type} (k : string) (v : A) (kvs : list (string * A))
  : list (string * A) :=
  match kvs with
  | [] => [(k, v)]
  | (k', v') :: r =>
      if comes_before k k' then (k, v) :: kvs else (k', v') :: insert_key k v r
  end.

(** The own property [k] of a table gets the value [v], as a property
    definition or a write to an existing own property does it: an existing
    property keeps its place, a new integer-like key goes among the
    integer-like keys, any other new key goes last. *)
Definition assign {A : Type} (k : string) (v : A) (kvs : list (string * A))
  : list (string * A) :=
  if existsb (String.eqb k) (map fst kvs) then replace_key k v kvs
  else insert_key k v kvs.

(** [obj[k] = v] with a computed key, on an object that was created as [{}]
    and filled by such writes only: the key [__proto__] is the accessor of
    [Object.prototype], whose setter creates no own property. *)
Definition setProp {A : Type} (k : string) (v : A) (kvs : list (string * A))
  : list (string * A) :=
  if String.eqb k "__proto__" then kvs else assign k v kvs.


(** The name of array index [i]. *)
Definition index_key (i : nat) : string :=
  NilZero.string_of_uint (Nat.to_uint i).

Fixpoint chars (s : string) : list value :=
  match s with
  | EmptyString => []
  | String c r => VStr (String c EmptyString) :: chars r
  end.

Fixpoint indexed (i : nat) (l : list value) : list (string * value) :=
  match l with
  | [] => []
  | x :: r => (index_key i, x) :: indexed (S i) r
  end.

(** Enumerable own properties, in enumeration order ([Object.keys], [for in],
    object spread). *)
Definition own_entries (v : option value) : list (string * value) :=
  match v with
  | Some (VObj props) => props
  | Some (VArr items) => indexed 0 items
  | Some (VStr s) => indexed 0 (chars s)
  | _ => []
  end.

Definition keys (v : option value) : list string := map fst (own_entries v).

(** The own property [k] of a JSON value, [undefined] when it has none:
    [length] is an own property of arrays and strings. *)
Definition own (v : option value) (k : string) : option value :=
  match assoc k (own_entries v) with
  | Some x => Some x
  | None =>
      match v with
      | Some (VArr items) =>
          if String.eqb k "length" then Some (VNum (Z.of_nat (length items))) else None
      | Some (VStr s) =>
          if String.eqb k "length" then Some (VNum (Z.of_nat (String.length s))) else None
      | _ => None
      end
  end.

(** The function-valued properties of [Object.prototype]. *)
Definition object_methods : list string :=
  [ "constructor"; "__defineGetter__"; "__defineSetter__"; "hasOwnProperty";
    "__lookupGetter__"; "__lookupSetter__"; "isPrototypeOf";
    "propertyIsEnumerable"; "toString"; "valueOf"; "toLocaleString" ].

Definition object_method (k : string) : bool :=
  existsb (String.eqb k) object_methods.
Arguments object_method : simpl never.

(** A name [Object.prototype] defines: one of its functions, or the accessor
    [__proto__]. *)
Definition object_member (k : string) : bool :=
  String.eqb k "__proto__" || object_method k.

(** What a read [v[k]] finds. *)
Inductive lookup : Type :=
| Found (x : jsval)
| NotFound
| Foreign
| Unknown
| Raises.

(** [v[k]].
    - A decoded object: its own property, else the property of
      [Object.prototype]; the accessor [__proto__] answers the prototype.
    - [Object.prototype]: its own property; its prototype is [null].
    - An array, a string, a number or a boolean: an own property ([Found]);
      for any other key the read goes to [Array.prototype],
      [String.prototype], ... and answers [undefined] or a function or object
      of the standard library, never a JSON value: [Foreign].
    - A function of the standard library: [Unknown].
    - [null]: the read throws a [TypeError]. *)
Definition getProp (v : jsval) (k : string) : lookup :=
  match v with
  | Json VNull => Raises
  | Json (VObj props) =>
      match assoc k props with
      | Some x => Found (Json x)
      | None =>
          if String.eqb k "__proto__" then Found ObjectPrototype
          else if object_method k then Found (Method k)
          else NotFound
      end
  | Json u =>
      match own (Some u) k with
      | Some x => Found (Json x)
      | None => Foreign
      end
  | ObjectPrototype =>
      if String.eqb k "__proto__" then Found (Json VNull)
      else if object_method k then Found (Method k)
      else NotFound
  | Method _ => Unknown
  end.

(** The value of a read that is known to answer a value or [undefined]. *)
Definition found (l : lookup) : option jsval :=
  match l with Found x => Some x | _ => None end.

(** [Object.keys v] for an object or a function. *)
Definition objectKeys (v : jsval) : list string :=
  match v with Json x => keys (Some x) | _ => [] end.

(** [{ ...a, ...b }] *)
Definition spread (a b : option value) : list (string * value) :=
  fold_left (fun acc kv => assign (fst kv) (snd kv) acc) (own_entries b)
    (fold_left (fun acc kv => assign (fst kv) (snd kv) acc) (own_entries a) []).

(** [new Set (l)] spread back into an array: first occurrences, in order. *)
Fixpoint uniq_from (seen l : list string) : list string :=
  match l with
  | [] => []
  | k :: r =>
      if existsb (String.eqb k) seen then uniq_from seen r
      else k :: uniq_from (k :: seen) r
  end.

Definition uniq (l : list string) : list string := uniq_from [] l.

(** ** Tenant keys *)

(** The white space [String.prototype.trim] strips, among the code units
    below 256: TAB, LF, VT, FF, CR, SPACE and NBSP. *)
Definition is_space (c : ascii) : bool :=
  let n := nat_of_ascii c in
  (Nat.eqb n 32 || (Nat.leb 9 n && Nat.leb n 13) || Nat.eqb n 160)%bool.

Fixpoint trim_left (s : string) : string :=
  match s with
  | String c r => if is_space c then trim_left r else s
  | EmptyString => EmptyString
  end.

Fixpoint trim_right (s : string) : string :=
  match s with
  | EmptyString => EmptyString
  | String c r =>
      match trim_right r with
      | EmptyString => if is_space c then EmptyString else String c EmptyString
      | r' => String c r'
      end
  end.

(** [String.prototype.trim] *)
Definition trim (s : string) : string := trim_right (trim_left s).

(** [Number.MAX_SAFE_INTEGER]: up to it an integer is printed with all its
    digits. *)
Definition max_safe_integer : Z := 9007199254740991.

(** [String v].  An object that has an own property [toString] cannot be
    converted: the property is a JSON value, not a function, and
    [Object.prototype.valueOf] answers the object itself.  An array is joined
    with commas, [null] elements printing as nothing.  An integer beyond the
    safe range is printed from its double, which is not modelled. *)
Fixpoint toStr (v : value) : outcome string :=
  match v with
  | VNull => Done "null"
  | VBool true => Done "true"
  | VBool false => Done "false"
  | VNum n =>
      if (Z.abs n <=? max_safe_integer)%Z
      then Done (NilZero.string_of_int (Z.to_int n))
      else Beyond
  | VStr s => Done s
  | VArr items =>
      (fix join (l : list value) : outcome string :=
         match l with
         | [] => Done ""
         | x :: r =>
             match match x with VNull => Done "" | _ => toStr x end with
             | Done s =>
                 match r with
                 | [] => Done s
                 | _ =>
                     match join r with
                     | Done t => Done (s +:+ "," +:+ t)
                     | Throw msg => Throw msg
                     | Beyond => Beyond
                     end
                 end
             | Throw msg => Throw msg
             | Beyond => Beyond
             end
         end) items
  | VObj props =>
      match assoc "toString" props with
      | Some _ => Throw "TypeError: Cannot convert object to primitive value"
      | None => Done "[object Object]"
      end
  end.

(** [const keyFor = (userId) => (userId && String(userId).trim()) || 'default'] *)
Definition keyFor (userId : option value) : outcome string :=
  match userId with
  | Some u =>
      if truthy (Some u) then
        let* s := toStr u in
        Done match trim s with
             | EmptyString => "default"
             | k => k
             end
      else Done "default"
  | None => Done "default"
  end.

(** ** index.js, second revision: patches, score extraction, wagon deltas

    The first revision of index.js has the same [GET /api/state] routes and
    the same [join] handler; its publish handlers store the same fields and
    broadcast the whole document. *)

Module Patch.

(** [{ op: 'set', path, value }]; [value = None] is [undefined], the
    marker of a removed key. *)
Record patch_op : Type := mkOp {
  op : string;
  path : string;
  val : option jsval
}.

Definition addOp (path : string) (v : option jsval) : patch_op :=
  mkOp "set" path v.

(** [isPlainObject(v) ? v : {}] *)
Definition plain (v : jsval) : jsval :=
  if isPlainObject (Some v) then v else Json (VObj []).

Definition allKeys (prev next : jsval) : list string :=
  uniq (objectKeys (plain prev) ++ objectKeys (plain next)).

(** [l.some((v, i) => f v i)] *)
Fixpoint some_from (i : nat) (f : value -> nat -> bool) (l : list value) : bool :=
  match l with
  | [] => false
  | v :: r => f v i || some_from (S i) f r
  end.

Definition array_changed (p n : list value) : bool :=
  negb (Nat.eqb (length p) (length n))
  || some_from 0 (fun v i => negb (stringify_eqb (Some v) (n !! i))) p.

(** [basePath ? `${basePath}.${key}` : key] *)
Definition child_path (basePath key : string) : string :=
  match basePath with
  | EmptyString => key
  | _ => basePath +:+ "." +:+ key
  end.

(** [isPlainObject(v) ? v[key] : undefined]: a read off a plain object
    answers a value or [undefined]. *)
Definition plainProp (v : jsval) (key : string) : option jsval :=
  if isPlainObject (Some v) then found (getProp v key) else None.

(** Body of the [for (const key of allKeys)] loop; [self] is the recursive
    call. *)
Definition diffKey (self : jsval -> jsval -> string -> list patch_op)
    (prev next : jsval) (basePath key : string) : list patch_op :=
  let p := plainProp prev key in
  let n := plainProp next key in
  let path := child_path basePath key in
  match n with
  | None => [addOp path None]
  | Some nv =>
      let replaced :=
        if negb (stringify_eqb (stringify p) (stringify (Some nv)))
        then [addOp path (Some nv)] else [] in
      match p with
      | Some pv =>
          if isPlainObject (Some pv) && isPlainObject (Some nv) then self pv nv path
          else
            match pv, nv with
            | Json (VArr pa), Json (VArr na) =>
                if array_changed pa na then [addOp path (Some nv)] else []
            | _, _ => replaced
            end
      | None => replaced
      end
  end.

Fixpoint deepDiffOps_rec (fuel : nat) (prev next : jsval) (basePath : string)
  : list patch_op :=
  match fuel with
  | 0 => []
  | S fuel' =>
      flat_map (diffKey (deepDiffOps_rec fuel') prev next basePath)
        (allKeys prev next)
  end.

(** [deepDiffOps(prev, next, basePath)]; the budget covers every nesting
    level of [next] (see [deepDiffOps_unfold]). *)
Definition deepDiffOps (prev next : jsval) (basePath : string) : list patch_op :=
  deepDiffOps_rec (S (jdepth next)) prev next basePath.

(** [state[k]] *)
Record Document : Type := mkDocument {
  matchData : value;
  overlays : value;
  wagonData : value;
  updatedAt : option timestamp
}.

(** [{ matchData: null, overlays: {}, wagonData: [], updatedAt: null }], the
    default of the read paths. *)
Definition read_default : Document :=
  mkDocument VNull (VObj []) (VArr []) None.

(** [{ matchData: {}, overlays: {}, wagonData: [] }], the default of the
    publish handlers. *)
Definition publish_default : Document :=
  mkDocument (VObj []) (VObj []) (VArr []) None.

Inductive event : Type :=
| match_update (doc : Document)
| score_update (scorePatch : list (string * option jsval))
| state_patch (ops : list patch_op)
| wagon_append (items : list value) (startIndex : nat)
| wagon_update (wagonData : list value).

(** [io.to(room).emit(event)] *)
Definition emission : Type := string * event.

(** [GET /api/state/:userId]: the store afterwards and the document of the
    response. *)
Definition get_state (state : gmap string Document) (userId : string)
  : outcome (gmap string Document * Document) :=
  let* k := keyFor (Some (VStr userId)) in
  let s := default read_default (state !! k) in
  Done (state, s).

(** [socket.on('join')]: the store afterwards, the room joined and the
    document sent back to the caller as [match-update]. *)
Definition join (state : gmap string Document) (payload : option value)
  : outcome (gmap string Document * string * Document) :=
  let* k := keyFor (if truthy payload then own payload "userId" else payload) in
  let s := default read_default (state !! k) in
  Done (state, k, s).

(** [a || {}] *)
Definition or_empty (a : option value) : value :=
  match a with
  | Some v => if truthy a then v else VObj []
  | None => VObj []
  end.

(** [nextScore[key] === prevScore[key]], for [nextScore] a decoded object,
    [prevScore] a stored JSON value and [key] an own key of one of them.
    When both own [key], two JSON values are compared.  When one of them does
    not, its side is [undefined] or an object of the standard library and
    the other side is a JSON value: they differ. *)
Definition sameScore (prevScore : value) (nextScore : list (string * value))
    (key : string) : bool :=
  match assoc key nextScore, own (Some prevScore) key with
  | Some nv, Some pv => strict_eqb (Some nv) (Some pv)
  | _, _ => false
  end.

(** One iteration of the loop that fills [scorePatch]:
    [if (nextScore[key] !== prevScore[key]) scorePatch[key] = nextScore[key]]. *)
Definition scoreKey (prevScore : value) (nextScore : list (string * value))
    (patch : list (string * option jsval)) (key : string)
  : list (string * option jsval) :=
  if sameScore prevScore nextScore key then patch
  else setProp key (found (getProp (Json (VObj nextScore)) key)) patch.

(** The [for] loop that fills [scorePatch], for [nextScore] a decoded
    object. *)
Definition scorePatch (prevScore : value) (nextScore : list (string * value))
  : list (string * option jsval) :=
  fold_left (scoreKey prevScore nextScore)
    (uniq (keys (Some prevScore) ++ map fst nextScore)) [].

Definition under_score (o : patch_op) : bool :=
  String.eqb (path o) "matchData.score" || String.prefix "matchData.score." (path o).

(** [socket.on('publish-update', (payload = {}) => ...)] *)
Definition publish_update (state : gmap string Document) (now : timestamp)
    (payload : option value)
  : outcome (gmap string Document * list emission) :=
  match default (VObj []) payload with
  | VNull => Throw "TypeError: Cannot destructure property 'userId' of 'payload' as it is null."
  | pl =>
      let userId := own (Some pl) "userId" in
      let matchData_ := own (Some pl) "matchData" in
      let overlays_ := own (Some pl) "overlays" in
      let* k := keyFor userId in
      let prev := default publish_default (state !! k) in
      let next_matchData :=
        match matchData_ with
        | Some m => m
        | None => or_empty (Some (matchData prev))
        end in
      let next_overlays :=
        match overlays_ with
        | Some o => VObj (spread (Some (overlays prev)) (Some o))
        | None => or_empty (Some (overlays prev))
        end in
      let ops1 :=
        match matchData_ with
        | Some (VObj m) =>
            deepDiffOps (Json (or_empty (Some (matchData prev)))) (Json (VObj m))
              "matchData"
        | _ => []
        end in
      let ops2 :=
        match overlays_ with
        | Some (VObj o) =>
            deepDiffOps (Json (or_empty (Some (overlays prev)))) (Json (VObj o))
              "overlays"
        | _ => []
        end in
      let ops := ops1 ++ ops2 in
      let state' :=
        <[k := mkDocument next_matchData next_overlays (wagonData prev) (Some now)]> state in
      let score :=
        match matchData_ with
        | Some (VObj m) =>
            match own (Some (VObj m)) "score" with
            | Some (VObj s) =>
                let prevScore :=
                  or_empty (if truthy (Some (matchData prev))
                            then own (Some (matchData prev)) "score"
                            else Some (matchData prev)) in
                scorePatch prevScore s
            | _ => []
            end
        | _ => []
        end in
      let sent := match score with [] => [] | _ => [(k, score_update score)] end in
      let ops' :=
        match score with
        | [] => ops
        | _ => List.filter (fun o => negb (under_score o)) ops
        end in
      Done (state', sent ++ match ops' with [] => [] | _ => [(k, state_patch ops')] end)
  end.

Definition as_array (v : value) : list value :=
  match v with VArr l => l | _ => [] end.

(** The [isAppendOnly] flag after the loop. *)
Definition isAppendOnly (oldArr newArr : list value) : bool :=
  Nat.leb (length oldArr) (length newArr)
  && forallb (fun i => stringify_eqb (oldArr !! i) (newArr !! i))
       (seq 0 (length oldArr)).

(** What the handler emits for a stored sequence and a new one. *)
Definition wagon_delta (oldArr newArr : list value) : event :=
  if isAppendOnly oldArr newArr && Nat.ltb (length oldArr) (length newArr)
  then wagon_append (drop (length oldArr) newArr) (length oldArr)
  else wagon_update newArr.

(** [socket.on('publish-wagon', (payload = {}) => ...)] *)
Definition publish_wagon (state : gmap string Document) (now : timestamp)
    (payload : option value)
  : outcome (gmap string Document * list emission) :=
  match default (VObj []) payload with
  | VNull => Throw "TypeError: Cannot destructure property 'userId' of 'payload' as it is null."
  | pl =>
      let userId := own (Some pl) "userId" in
      let wagonData_ := own (Some pl) "wagonData" in
      let* k := keyFor userId in
      let prev := default publish_default (state !! k) in
      let nextWagon :=
        match wagonData_ with
        | Some (VArr l) => VArr l
        | _ => wagonData prev
        end in
      let state' :=
        <[k := mkDocument (matchData prev) (overlays prev) nextWagon (Some now)]> state in
      Done (state', [(k, wagon_delta (as_array (wagonData prev)) (as_array nextWagon))])
  end.

End Patch.

(** ** index.js, first revision: every publish broadcasts the document *)

Module Relay.

(** [{ matchData: null, overlays: {}, wagonData: [] }], the default of the
    publish handlers. *)
Definition publish_default : Patch.Document :=
  Patch.mkDocument VNull (VObj []) (VArr []) None.

(** [socket.on('publish-update', (payload = {}) => ...)] *)
Definition publish_update (state : gmap string Patch.Document) (now : timestamp)
    (payload : option value)
  : outcome (gmap string Patch.Document * list Patch.emission) :=
  match default (VObj []) payload with
  | VNull => Throw "TypeError: Cannot destructure property 'userId' of 'payload' as it is null."
  | pl =>
      let userId := own (Some pl) "userId" in
      let matchData_ := own (Some pl) "matchData" in
      let overlays_ := own (Some pl) "overlays" in
      let* k := keyFor userId in
      let prev := default publish_default (state !! k) in
      let doc :=
        Patch.mkDocument
          (match matchData_ with
           | Some m => m
           | None => Patch.matchData prev
           end)
          (match overlays_ with
           | Some o => VObj (spread (Some (Patch.overlays prev)) (Some o))
           | None => Patch.overlays prev
           end)
          (Patch.wagonData prev)
          (Some now) in
      Done (<[k := doc]> state, [(k, Patch.match_update doc)])
  end.

(** [socket.on('publish-wagon', (payload = {}) => ...)] *)
Definition publish_wagon (state : gmap string Patch.Document) (now : timestamp)
    (payload : option value)
  : outcome (gmap string Patch.Document * list Patch.emission) :=
  match default (VObj []) payload with
  | VNull => Throw "TypeError: Cannot destructure property 'userId' of 'payload' as it is null."
  | pl =>
      let userId := own (Some pl) "userId" in
      let wagonData_ := own (Some pl) "wagonData" in
      let* k := keyFor userId in
      let prev := default publish_default (state !! k) in
      let doc :=
        Patch.mkDocument (Patch.matchData prev) (Patch.overlays prev)
          (match wagonData_ with
           | Some (VArr l) => VArr l
           | _ => Patch.wagonData prev
           end)
          (Some now) in
      Done (<[k := doc]> state, [(k, Patch.match_update doc)])
  end.

End Relay.

(** ** part_000 and part_001: the update coalescer

    [pendingUpdates], [scheduleUpdate] and the [setInterval] callback are the
    same text in both files. *)

Module Coalescer.

(** [{ type: updateType, data }] *)
Record update : Type := mkUpdate {
  type : string;
  data : value
}.

(** [pendingUpdates], created as [{}]: the own properties, tenant key to
    pending entries, in [for in] order. *)
Definition pending : Type := list (string * list update).

(** [pendingUpdates[userId]], as far as the two uses in [scheduleUpdate] go:
    the own queue, or [None] for [undefined]; a name of [Object.prototype]
    that is no own property answers a function or [Object.prototype], a
    truthy value without a method [push]. *)
Definition queue_of (pendingUpdates : pending) (userId : string)
  : outcome (option (list update)) :=
  match assoc userId pendingUpdates with
  | Some queue => Done (Some queue)
  | None =>
      if object_member userId
      then Throw "TypeError: pendingUpdates[userId].push is not a function"
      else Done None
  end.

(** [function scheduleUpdate(userId, updateType, data)] *)
Definition scheduleUpdate (pendingUpdates : pending) (userId updateType : string)
    (data : value) : outcome pending :=
  let* found_ := queue_of pendingUpdates userId in
  let p :=
    match found_ with
    | None => assign userId [] pendingUpdates
    | Some _ => pendingUpdates
    end in
  Done (assign userId (default [] (assoc userId p) ++ [mkUpdate updateType data]) p).

(** [io.to(userId).emit("bulk-update", updates)] *)
Definition emission : Type := string * list update.

(** One iteration of the [for (const userId in pendingUpdates)] loop. *)
Definition flush_one (acc : pending * list emission) (userId : string)
  : pending * list emission :=
  let updates := default [] (assoc userId (fst acc)) in
  if Nat.ltb 0 (length updates)
  then (assign userId [] (fst acc), snd acc ++ [(userId, updates)])
  else acc.

(** The callback of [setInterval(..., 500)]: the queues left behind and the
    messages sent. *)
Definition flush (pendingUpdates : pending) : pending * list emission :=
  fold_left flush_one (map fst pendingUpdates) (pendingUpdates, []).

(** What happens to the coalescer between and at ticks. *)
Inductive step : Type :=
| Enqueue (userId updateType : string) (data : value)
| Tick.

(** Runs a sequence of steps; the result carries, newest tick last, the
    messages of every tick.  A call of [scheduleUpdate] that throws ends the
    run. *)
Fixpoint run (pendingUpdates : pending) (steps : list step)
  : outcome (pending * list (list emission)) :=
  match steps with
  | [] => Done (pendingUpdates, [])
  | Enqueue u t d :: r =>
      let* p := scheduleUpdate pendingUpdates u t d in
      run p r
  | Tick :: r =>
      let '(p, out) := flush pendingUpdates in
      let* res := run p r in
      Done (fst res, out :: snd res)
  end.

(** The entries queued for [userId] after the last tick of [steps], oldest
    first; [acc] holds what was queued before [steps]. *)
Fixpoint queued_from (acc : list update) (userId : string) (steps : list step)
  : list update :=
  match steps with
  | [] => acc
  | Enqueue u t d :: r =>
      queued_from (if String.eqb u userId then acc ++ [mkUpdate t d] else acc) userId r
  | Tick :: r => queued_from [] userId r
  end.

Definition queued (userId : string) (steps : list step) : list update :=
  queued_from [] userId steps.

(** The one [bulk-update] message that carries [updates], none when there
    are none. *)
Definition bulk_for (userId : string) (updates : list update) : list emission :=
  match updates with
  | [] => []
  | _ => [(userId, updates)]
  end.

(** The messages of [out] that went to room [userId]. *)
Definition sent_to (userId : string) (out : list emission) : list emission :=
  List.filter (fun e => String.eqb (fst e) userId) out.

(** The tenant of a step can be scheduled: its key is no name of
    [Object.prototype]. *)
Definition schedulable (s : step) : bool :=
  match s with
  | Enqueue u _ _ => negb (object_member u)
  | Tick => true
  end.

End Coalescer.

(** ** part_000: nested change sets, batched *)

Module Batch.
Import Coalescer.

(** Body of [for (const key in newObj)]: [changes] afterwards.  [nv] is
    [newObj[key]], an own property; [self] is the recursive call.

    The read [oldObj[key]] is [getProp].  In the comparison [nv !== oldObj[key]]
    the left side is a JSON scalar: it differs from [undefined] and from any
    object of the standard library.  In [oldObj[key] || {}] a [Foreign] read
    decides between [{}] and an object of the standard library, and a read
    off a function may answer anything: there the model stops. *)
Definition diffEntry (self : jsval -> value -> outcome (list (string * value)))
    (oldObj : jsval) (changes : list (string * value)) (entry : string * value)
  : outcome (list (string * value)) :=
  let '(key, nv) := entry in
  if isObjectLike (Some nv) then
    match getProp oldObj key with
    | Raises => Throw "TypeError: Cannot read properties of null"
    | Unknown | Foreign => Beyond
    | l =>
        let old :=
          match l with
          | Found x => if truthy_js x then x else Json (VObj [])
          | _ => Json (VObj [])
          end in
        let* nestedDiff := self old nv in
        Done match nestedDiff with
             | [] => changes
             | _ => setProp key (VObj nestedDiff) changes
             end
    end
  else
    match getProp oldObj key with
    | Raises => Throw "TypeError: Cannot read properties of null"
    | Unknown => Beyond
    | Found (Json ov) =>
        Done (if strict_eqb (Some nv) (Some ov) then changes else setProp key nv changes)
    | _ => Done (setProp key nv changes)
    end.

Fixpoint diffObjects_rec (fuel : nat) (oldObj : jsval) (newObj : value)
  : outcome (list (string * value)) :=
  match fuel with
  | 0 => Done []
  | S fuel' =>
      each (diffEntry (diffObjects_rec fuel') oldObj) (own_entries (Some newObj)) []
  end.

(** [function diffObjects(oldObj, newObj)], the properties of [changes];
    the budget covers every nesting level of [newObj] (see
    [diffObjects_unfold]). *)
Definition diffObjects (oldObj : jsval) (newObj : value)
  : outcome (list (string * value)) :=
  diffObjects_rec (S (depth newObj)) oldObj newObj.

Record Document : Type := mkDocument {
  matchData : value;
  overlays : value;
  wagonData : value;
  updatedAt : timestamp
}.

(** [{ matchData: {}, overlays: {}, wagonData: {}, updatedAt: Date.now() }] *)
Definition fresh (now : timestamp) : Document :=
  mkDocument (VObj []) (VObj []) (VObj []) now.

Record server : Type := mkServer {
  state : gmap string Document;
  pendingUpdates : pending
}.

(** [if (!state[key]) state[key] = {...}] *)
Definition ensure (state : gmap string Document) (key : string) (now : timestamp)
  : gmap string Document :=
  match state !! key with
  | Some _ => state
  | None => <[key := fresh now]> state
  end.

(** [keyFor(req.params.userId || "default")] *)
Definition route_key (userId : option string) : outcome string :=
  keyFor (Some (VStr (match userId with
                      | Some u => if truthy (Some (VStr u)) then u else "default"
                      | None => "default"
                      end))).

(** [app.get("/api/state/:userId?")]: the store afterwards and the
    response, [Some] document or [None] for the empty object [{}]. *)
Definition get_state (state : gmap string Document) (userId : option string)
  : outcome (gmap string Document * option Document) :=
  let* k := route_key userId in
  Done (state, state !! k).

(** [socket.on("join", (userId) => ...)]: the store afterwards, the room
    joined and the document sent as [init-state]. *)
Definition join (state : gmap string Document) (now : timestamp)
    (userId : option value) : outcome (gmap string Document * string * Document) :=
  let* key := keyFor userId in
  let state' := ensure state key now in
  Done (state', key, default (fresh now) (state' !! key)).

(** One of the two blocks [if (matchData) { ... }] and [if (overlays) { ... }]:
    the field stored afterwards and the entry added to [changes]. *)
Definition absorb (name : string) (stored : value) (supplied : option value)
  : outcome (value * list (string * value)) :=
  match supplied with
  | Some m =>
      if truthy (Some m) then
        let* diff := diffObjects (Json stored) m in
        Done match diff with
             | [] => (stored, [])
             | _ => (VObj (spread (Some stored) (Some m)), [(name, VObj diff)])
             end
      else Done (stored, [])
  | None => Done (stored, [])
  end.

(** The body of the [publish-update] handler for a payload [pl] that can be
    destructured. *)
Definition update_body (sv : server) (now : timestamp) (pl : value) : outcome server :=
  let userId := own (Some pl) "userId" in
  let* key := keyFor userId in
  let state1 := ensure (state sv) key now in
  let doc := default (fresh now) (state1 !! key) in
  let* md := absorb "matchData" (matchData doc) (own (Some pl) "matchData") in
  let* ov := absorb "overlays" (overlays doc) (own (Some pl) "overlays") in
  let changes := snd md ++ snd ov in
  let* p := match changes with
       | [] => Done (pendingUpdates sv)
       | _ => scheduleUpdate (pendingUpdates sv) key "update" (VObj changes)
       end in
  Done (mkServer (<[key := mkDocument (fst md) (fst ov) (wagonData doc) now]> state1) p).

(** [socket.on("publish-update", ({ userId, matchData, overlays }) => ...)] *)
Definition publish_update (sv : server) (now : timestamp) (payload : option value)
  : outcome server :=
  match payload with
  | None => Throw "TypeError: Cannot destructure property 'userId' of 'undefined' as it is undefined."
  | Some VNull => Throw "TypeError: Cannot destructure property 'userId' of 'object null' as it is null."
  | Some pl => update_body sv now pl
  end.

(** The body of the [publish-wagon] handler for a payload [pl] that can be
    destructured. *)
Definition wagon_body (sv : server) (now : timestamp) (pl : value) : outcome server :=
  let userId := own (Some pl) "userId" in
  let wagonData_ := own (Some pl) "wagonData" in
  let* key := keyFor userId in
  let state1 := ensure (state sv) key now in
  let doc := default (fresh now) (state1 !! key) in
  match wagonData_ with
  | Some w =>
      if truthy (Some w) && negb (stringify_eqb (Some w) (Some (wagonData doc)))
      then
        let* p := scheduleUpdate (pendingUpdates sv) key "wagon" (VObj [("wagonData", w)]) in
        Done (mkServer
                (<[key := mkDocument (matchData doc) (overlays doc) w now]> state1) p)
      else Done (mkServer state1 (pendingUpdates sv))
  | None => Done (mkServer state1 (pendingUpdates sv))
  end.

(** [socket.on("publish-wagon", ({ userId, wagonData }) => ...)] *)
Definition publish_wagon (sv : server) (now : timestamp) (payload : option value)
  : outcome server :=
  match payload with
  | None => Throw "TypeError: Cannot destructure property 'userId' of 'undefined' as it is undefined."
  | Some VNull => Throw "TypeError: Cannot destructure property 'userId' of 'object null' as it is null."
  | Some pl => wagon_body sv now pl
  end.

End Batch.

(** ** part_001: whole-field comparison, batched *)

Module Snapshot.
Import Coalescer.

Definition Document : Type := Batch.Document.
Definition server : Type := Batch.server.

(** One of the two blocks [if (x && JSON.stringify(x) !== JSON.stringify(stored))]:
    the field stored afterwards and the entry added to [changes]. *)
Definition replace_field (name : string) (stored : value) (supplied : option value)
  : value * list (string * value) :=
  match supplied with
  | Some m =>
      if truthy (Some m) && negb (stringify_eqb (Some m) (Some stored))
      then (m, [(name, m)])
      else (stored, [])
  | None => (stored, [])
  end.

(** The body of the [publish-update] handler for a payload [pl] that can be
    destructured. *)
Definition update_body (sv : server) (now : timestamp) (pl : value) : outcome server :=
  let userId := own (Some pl) "userId" in
  let* key := keyFor userId in
  let state1 := Batch.ensure (Batch.state sv) key now in
  let doc := default (Batch.fresh now) (state1 !! key) in
  let md := replace_field "matchData" (Batch.matchData doc) (own (Some pl) "matchData") in
  let ov := replace_field "overlays" (Batch.overlays doc) (own (Some pl) "overlays") in
  let changes := snd md ++ snd ov in
  let* p := match changes with
       | [] => Done (Batch.pendingUpdates sv)
       | _ => scheduleUpdate (Batch.pendingUpdates sv) key "update" (VObj changes)
       end in
  Done (Batch.mkServer
          (<[key := Batch.mkDocument (fst md) (fst ov) (Batch.wagonData doc) now]> state1)
          p).

(** [socket.on("publish-update", ({ userId, matchData, overlays }) => ...)] *)
Definition publish_update (sv : server) (now : timestamp) (payload : option value)
  : outcome server :=
  match payload with
  | None => Throw "TypeError: Cannot destructure property 'userId' of 'undefined' as it is undefined."
  | Some VNull => Throw "TypeError: Cannot destructure property 'userId' of 'object null' as it is null."
  | Some pl => update_body sv now pl
  end.

(** [publish-wagon], [join] and the state route are the text of part_000. *)
Definition publish_wagon := Batch.publish_wagon.
Definition join := Batch.join.
Definition get_state := Batch.get_state.

End Snapshot.

(** ** The subscriber's side of a patch *)

Module Client.
Import Patch.









End Client.

(** ** Structural equality and well-formed mappings *)



Definition nonempty (k : string) : bool :=
  match k with EmptyString => false | _ => true end.

Fixpoint distinct (l : list string) : bool :=
  match l with
  | [] => true
  | k :: r => negb (existsb (String.eqb k) r) && distinct r
  end.





(** ** Patches with structured addresses

    The operations a subscriber receives from [deepDiffOps] when no key is
    [__proto__], with the keys of each path kept apart: [deepDiffOps_keyed]
    relates the two. *)

Module Keyed.
Import Patch.


(** [basePath] after descending along [ks], as [diffKey] builds [path]. *)
Fixpoint join (basePath : string) (ks : list string) : string :=
  match ks with
  | [] => basePath
  | k :: r => join (child_path basePath k) r
  end.









End Keyed.

(** ** Shapes the handlers keep *)

(** A document of index.js whose overlays are a mapping and whose wagon data
    are a sequence. *)
Definition patch_shaped (doc : Patch.Document) : bool :=
  mapping (Some (Patch.overlays doc))
  && match Patch.wagonData doc with VArr _ => true | _ => false end.


(** Every stored document has the shape [ok]. *)
Definition all_docs {D : Type} (ok : D -> bool) (state : gmap string D) : Prop :=
  forall k doc, state !! k = Some doc -> ok doc = true.

(** The tenant key a publish handler of index.js works on, for the payload
    it was called with. *)
Definition room_of (payload : option value) : outcome string :=
  keyFor (own (Some (default (VObj []) payload)) "userId").

(** No value bound in the table is a sequence or a mapping. *)
Definition scalar_valued (props : list (string * value)) : bool :=
  forallb (fun kv => negb (isObjectLike (Some (snd kv)))) props.

(** The tenants the steps schedule. *)
Definition enqueued (steps : list Coalescer.step) : list string :=
  flat_map (fun s => match s with
                     | Coalescer.Enqueue u _ _ => [u]
                     | Coalescer.Tick => []
                     end) steps.

(** * Properties *)

Import Patch Keyed Client.

(** ** Values and tables *)

Lemma value_ind' (P : value -> Prop) :
  P VNull -> (forall b, P (VBool b)) -> (forall n, P (VNum n)) ->
  (forall s, P (VStr s)) ->
  (forall items, Forall P items -> P (VArr items)) ->
  (forall props, Forall (fun kv => P (snd kv)) props -> P (VObj props)) ->
  forall v, P v.
Proof.
  intros Hnull Hbool Hnum Hstr Harr Hobj.
  fix IH 1. intros [ | b | n | s | items | props ].
  - exact Hnull.
  - apply Hbool.
  - apply Hnum.
  - apply Hstr.
  - apply Harr. induction items as [ | x r IHr ]; constructor; [ apply IH | exact IHr ].
  - apply Hobj. induction props as [ | [k x] r IHr ]; constructor; [ apply IH | exact IHr ].
Qed.

Lemma value_eqb_true (a : value) : forall b, value_eqb a b = true -> a = b.
Proof.
  induction a as [ | x | x | x | items IH | props IH ] using value_ind';
    intros [ | y | y | y | items' | props' ]; simpl; try discriminate; intros H.
  - reflexivity.
  - apply Bool.eqb_prop in H. congruence.
  - apply Z.eqb_eq in H. congruence.
  - apply String.eqb_eq in H. congruence.
  - f_equal. revert items' H.
    induction IH as [ | x r Hx _ IHr ]; intros [ | y r' ] H; try discriminate; auto.
    apply andb_prop in H as [H1 H2]. f_equal; auto.
  - f_equal. revert props' H.
    induction IH as [ | [k x] r Hx _ IHr ]; intros [ | [k' y] r' ] H; try discriminate; auto.
    apply andb_prop in H as [H1 H3]. apply andb_prop in H1 as [H1 H2].
    apply String.eqb_eq in H1. simpl in Hx. f_equal; [ f_equal; auto | auto ].
Qed.

Lemma value_eqb_refl (a : value) : value_eqb a a = true.
Proof.
  induction a as [ | x | x | x | items IH | props IH ] using value_ind'; simpl.
  - reflexivity.
  - destruct x; reflexivity.
  - apply Z.eqb_refl.
  - apply String.eqb_refl.
  - induction IH as [ | x r Hx _ IHr ]; auto. rewrite Hx, IHr. reflexivity.
  - induction IH as [ | [k x] r Hx _ IHr ]; auto.
    simpl in Hx. rewrite String.eqb_refl, Hx, IHr. reflexivity.
Qed.

Lemma value_eqb_eq (a b : value) : value_eqb a b = true <-> a = b.
Proof. split; [ apply value_eqb_true | intros ->; apply value_eqb_refl ]. Qed.

Lemma stringify_eqb_eq (a b : option value) : stringify_eqb a b = true <-> a = b.
Proof.
  destruct a, b; simpl; try (split; congruence).
  rewrite value_eqb_eq. split; congruence.
Qed.

Lemma stringify_eqb_same a : stringify_eqb a a = true.
Proof. apply stringify_eqb_eq. reflexivity. Qed.


Lemma existsb_eqb_In k l : existsb (String.eqb k) l = true <-> In k l.
Proof.
  rewrite existsb_exists. split.
  - intros (x & Hx & E). apply String.eqb_eq in E. congruence.
  - intros H. exists k. split; auto. apply String.eqb_refl.
Qed.

Lemma existsb_eqb_out k l : existsb (String.eqb k) l = false <-> ~ In k l.
Proof.
  rewrite <- existsb_eqb_In. destruct (existsb (String.eqb k) l); split; congruence.
Qed.

Section Tables.
Context {A : Type}.
Implicit Types (l : list (string * A)) (k : string).

Lemma assoc_None_keys k l : assoc k l = None <-> ~ In k (map fst l).
Proof.
  induction l as [ | [k' v'] r IH ]; simpl.
  - tauto.
  - destruct (String.eqb k k') eqn:E.
    + apply String.eqb_eq in E. subst. split; [ discriminate | intros H; exfalso; apply H; auto ].
    + apply String.eqb_neq in E. rewrite IH. split.
      * intros H [H' | H']; [ congruence | auto ].
      * intros H H'. apply H. auto.
Qed.

Lemma assoc_In k (v : A) l : assoc k l = Some v -> In (k, v) l.
Proof.
  induction l as [ | [k' v'] r IH ]; simpl; [ discriminate | ].
  destruct (String.eqb k k') eqn:E.
  - apply String.eqb_eq in E. intros [= ->]. subst. auto.
  - auto.
Qed.

Lemma assoc_Some_keys k (v : A) l : assoc k l = Some v -> In k (map fst l).
Proof. intros H. apply assoc_In in H. apply (in_map fst) in H. exact H. Qed.

Lemma keys_replace k (v : A) l : map fst (replace_key k v l) = map fst l.
Proof.
  induction l as [ | [k' v'] r IH ]; simpl; [ reflexivity | ].
  destruct (String.eqb k k'); simpl; [ reflexivity | ]. rewrite IH. reflexivity.
Qed.

Lemma keys_insert k (v : A) l x :
  In x (map fst (insert_key k v l)) <-> x = k \/ In x (map fst l).
Proof.
  induction l as [ | [k' v'] r IH ]; simpl.
  - split; [ intros [<- | []]; auto | intros [-> | []]; auto ].
  - destruct (comes_before k k'); simpl.
    + split; [ intros [<- | H]; auto | intros [-> | H]; auto ].
    + rewrite IH. split.
      * intros [H | [H | H]]; auto.
      * intros [H | [H | H]]; auto.
Qed.

Lemma assoc_replace_eq k (v : A) l :
  In k (map fst l) -> assoc k (replace_key k v l) = Some v.
Proof.
  induction l as [ | [k' v'] r IH ]; simpl; [ contradiction | ].
  destruct (String.eqb k k') eqn:E; simpl; rewrite E; [ reflexivity | ].
  intros [H | H]; [ | auto ]. apply String.eqb_neq in E. congruence.
Qed.

Lemma assoc_replace_ne k k' (v : A) l : k <> k' -> assoc k' (replace_key k v l) = assoc k' l.
Proof.
  intros Hne. induction l as [ | [k0 v0] r IH ]; simpl; [ reflexivity | ].
  destruct (String.eqb k k0) eqn:E; simpl.
  - apply String.eqb_eq in E. subst k0.
    destruct (String.eqb k' k) eqn:E'; auto.
    apply String.eqb_eq in E'. congruence.
  - rewrite IH. reflexivity.
Qed.

Lemma assoc_insert_eq k (v : A) l :
  ~ In k (map fst l) -> assoc k (insert_key k v l) = Some v.
Proof.
  induction l as [ | [k' v'] r IH ]; simpl; intros H.
  - rewrite String.eqb_refl. reflexivity.
  - destruct (comes_before k k'); simpl.
    + rewrite String.eqb_refl. reflexivity.
    + destruct (String.eqb_spec k k') as [-> | Hne]; [ exfalso; auto | ].
      apply IH. auto.
Qed.

Lemma assoc_insert_ne k k' (v : A) l : k <> k' -> assoc k' (insert_key k v l) = assoc k' l.
Proof.
  intros Hne. induction l as [ | [k0 v0] r IH ]; simpl.
  - destruct (String.eqb_spec k' k); [ congruence | reflexivity ].
  - destruct (comes_before k k0); simpl.
    + destruct (String.eqb_spec k' k); [ congruence | reflexivity ].
    + rewrite IH. reflexivity.
Qed.

Lemma assoc_assign_eq k (v : A) l : assoc k (assign k v l) = Some v.
Proof.
  unfold assign. destruct (existsb (String.eqb k) (map fst l)) eqn:E.
  - apply assoc_replace_eq. apply existsb_eqb_In. exact E.
  - apply assoc_insert_eq. apply existsb_eqb_out. exact E.
Qed.

Lemma assoc_assign_ne k k' (v : A) l : k <> k' -> assoc k' (assign k v l) = assoc k' l.
Proof.
  intros Hne. unfold assign. destruct (existsb (String.eqb k) (map fst l)).
  - apply assoc_replace_ne. exact Hne.
  - apply assoc_insert_ne. exact Hne.
Qed.

Lemma keys_assign k (v : A) l x :
  In x (map fst (assign k v l)) <-> x = k \/ In x (map fst l).
Proof.
  unfold assign. destruct (existsb (String.eqb k) (map fst l)) eqn:E.
  - rewrite keys_replace. apply existsb_eqb_In in E. split; [ auto | ].
    intros [-> | H]; auto.
  - apply keys_insert.
Qed.

Lemma keys_assign_present k (v : A) l :
  In k (map fst l) -> map fst (assign k v l) = map fst l.
Proof.
  intros H. unfold assign. apply existsb_eqb_In in H. rewrite H. apply keys_replace.
Qed.



Lemma replace_replace k (v w : A) l : replace_key k w (replace_key k v l) = replace_key k w l.
Proof.
  induction l as [ | [k' v'] r IH ]; simpl; [ reflexivity | ].
  destruct (String.eqb k k') eqn:E; simpl; rewrite E; [ reflexivity | ].
  rewrite IH. reflexivity.
Qed.

Lemma replace_insert k (v w : A) l :
  ~ In k (map fst l) -> replace_key k w (insert_key k v l) = insert_key k w l.
Proof.
  induction l as [ | [k' v'] r IH ]; simpl; intros H.
  - rewrite String.eqb_refl. reflexivity.
  - destruct (comes_before k k'); simpl.
    + rewrite String.eqb_refl. reflexivity.
    + destruct (String.eqb_spec k k') as [-> | Hne]; [ exfalso; auto | ].
      rewrite IH; auto.
Qed.

Lemma assign_assign k (v w : A) l : assign k w (assign k v l) = assign k w l.
Proof.
  assert (existsb (String.eqb k) (map fst (assign k v l)) = true) as E.
  { apply existsb_eqb_In. apply keys_assign. auto. }
  unfold assign at 1. rewrite E. unfold assign.
  destruct (existsb (String.eqb k) (map fst l)) eqn:E'.
  - apply replace_replace.
  - apply replace_insert. apply existsb_eqb_out. exact E'.
Qed.



Lemma assoc_app k (l1 l2 : list (string * A)) :
  assoc k (l1 ++ l2) = match assoc k l1 with Some v => Some v | None => assoc k l2 end.
Proof.
  induction l1 as [ | [k' v'] r IH ]; simpl; [ reflexivity | ].
  destruct (String.eqb k k'); [ reflexivity | exact IH ].
Qed.

Lemma assoc_app_out k pre l :
  ~ In k (map fst pre) -> assoc k (pre ++ l) = assoc k l.
Proof.
  intros H. rewrite assoc_app. apply assoc_None_keys in H. rewrite H. reflexivity.
Qed.

Lemma replace_app_out k (v : A) pre l :
  ~ In k (map fst pre) -> replace_key k v (pre ++ l) = pre ++ replace_key k v l.
Proof.
  induction pre as [ | [k' v'] r IH ]; simpl; intros H; [ reflexivity | ].
  destruct (String.eqb_spec k k') as [-> | Hne]; [ exfalso; auto | ].
  rewrite IH; auto.
Qed.

Lemma assign_app_out k (v : A) pre l :
  ~ In k (map fst pre) -> In k (map fst l) ->
  assign k v (pre ++ l) = pre ++ assign k v l.
Proof.
  intros Hpre Hl. unfold assign.
  assert (existsb (String.eqb k) (map fst (pre ++ l)) = true) as ->.
  { apply existsb_eqb_In. rewrite map_app, in_app_iff. auto. }
  assert (existsb (String.eqb k) (map fst l) = true) as ->.
  { apply existsb_eqb_In. exact Hl. }
  apply replace_app_out. exact Hpre.
Qed.

Lemma setProp_lookup k k' (v : A) l :
  k' <> "__proto__" ->
  assoc k' (setProp k v l) = if String.eqb k k' then Some v else assoc k' l.
Proof.
  intros Hk'. unfold setProp.
  destruct (String.eqb_spec k "__proto__") as [-> | Hk].
  - destruct (String.eqb_spec "__proto__" k'); [ congruence | reflexivity ].
  - destruct (String.eqb_spec k k') as [-> | Hne].
    + apply assoc_assign_eq.
    + apply assoc_assign_ne. exact Hne.
Qed.

Lemma setProp_no_proto k (v : A) l :
  assoc "__proto__" l = None -> assoc "__proto__" (setProp k v l) = None.
Proof.
  intros H. unfold setProp.
  destruct (String.eqb_spec k "__proto__") as [-> | Hk]; [ exact H | ].
  rewrite assoc_assign_ne by exact Hk. exact H.
Qed.


End Tables.

Lemma distinct_In_cons k r : distinct (k :: r) = true <-> ~ In k r /\ distinct r = true.
Proof.
  simpl. rewrite andb_true_iff, negb_true_iff, existsb_eqb_out. reflexivity.
Qed.

Lemma distinct_NoDup l : distinct l = true <-> NoDup l.
Proof.
  induction l as [ | k r IH ].
  - split; [ constructor | reflexivity ].
  - rewrite distinct_In_cons, NoDup_cons, IH, list_elem_of_In. reflexivity.
Qed.

Lemma distinct_app l1 l2 :
  distinct (l1 ++ l2) = true
  <-> distinct l1 = true /\ distinct l2 = true /\ (forall k, In k l1 -> ~ In k l2).
Proof.
  induction l1 as [ | x r IH ].
  - simpl. split; [ intros H; repeat split; auto | tauto ].
  - rewrite <- app_comm_cons, !distinct_In_cons, IH, in_app_iff. split.
    + intros (Hx & Hr & H2 & Hd). repeat split; auto.
      intros k [<- | Hk]; auto.
    + intros ((Hx & Hr) & H2 & Hd). repeat split; auto.
      * intros [H | H]; [ auto | ]. apply (Hd x); simpl; auto.
      * intros k Hk. apply Hd. simpl. auto.
Qed.

Section TableKeys.
Context {A : Type}.
Implicit Types (l : list (string * A)) (k : string).

Lemma distinct_insert k (v : A) l :
  ~ In k (map fst l) -> distinct (map fst l) = true ->
  distinct (map fst (insert_key k v l)) = true.
Proof.
  induction l as [ | [k' v'] r IH ]; intros Hk Hd; [ reflexivity | ].
  cbn [insert_key]. destruct (comes_before k k').
  - cbn [map fst]. apply distinct_In_cons. split; assumption.
  - cbn [map fst] in *. apply distinct_In_cons in Hd as [Hk' Hd].
    apply distinct_In_cons. split.
    + rewrite keys_insert. intros [-> | H]; [ apply Hk; simpl; auto | auto ].
    + apply IH; auto. intros H. apply Hk. simpl. auto.
Qed.

Lemma distinct_assign k (v : A) l :
  distinct (map fst l) = true -> distinct (map fst (assign k v l)) = true.
Proof.
  intros Hd. unfold assign. destruct (existsb (String.eqb k) (map fst l)) eqn:E.
  - rewrite keys_replace. exact Hd.
  - apply distinct_insert; [ | exact Hd ]. apply existsb_eqb_out. exact E.
Qed.

Lemma distinct_setProp k (v : A) l :
  distinct (map fst l) = true -> distinct (map fst (setProp k v l)) = true.
Proof.
  intros Hd. unfold setProp. destruct (String.eqb k "__proto__"); [ exact Hd | ].
  apply distinct_assign. exact Hd.
Qed.

Lemma distinct_assoc l k (v : A) :
  distinct (map fst l) = true -> In (k, v) l -> assoc k l = Some v.
Proof.
  induction l as [ | [k0 v0] r IH ]; [ contradiction | ].
  cbn [map fst]. intros Hd. apply distinct_In_cons in Hd as [H0 Hr].
  intros [[= -> ->] | H]; simpl.
  - rewrite String.eqb_refl. reflexivity.
  - destruct (String.eqb_spec k k0) as [-> | Hne]; [ | auto ].
    exfalso. apply H0. apply (in_map fst) in H. exact H.
Qed.

End TableKeys.

Lemma uniq_from_In seen l k : In k (uniq_from seen l) <-> In k l /\ ~ In k seen.
Proof.
  revert seen. induction l as [ | x r IH ]; intros seen; simpl.
  - tauto.
  - destruct (existsb (String.eqb x) seen) eqn:E.
    + apply existsb_eqb_In in E. rewrite IH. split.
      * intros [H1 H2]. auto.
      * intros [[-> | H1] H2]; [ contradiction | auto ].
    + assert (~ In x seen) as Hx.
      { intros H. apply existsb_eqb_In in H. congruence. }
      simpl. rewrite IH. simpl. split.
      * intros [-> | [H1 H2]]; [ auto | ]. split; auto.
      * intros [[-> | H1] H2]; [ auto | ].
        destruct (String.eqb_spec x k) as [-> | Hne]; [ auto | ].
        right. split; auto. intros [H | H]; auto.
  Qed.

Lemma uniq_In l k : In k (uniq l) <-> In k l.
Proof. unfold uniq. rewrite uniq_from_In. simpl. tauto. Qed.

Lemma uniq_from_NoDup seen l : NoDup (uniq_from seen l).
Proof.
  revert seen. induction l as [ | x r IH ]; intros seen; simpl.
  - constructor.
  - destruct (existsb (String.eqb x) seen); [ apply IH | ].
    constructor; [ | apply IH ].
    rewrite list_elem_of_In, uniq_from_In. simpl. tauto.
Qed.

Lemma uniq_NoDup l : NoDup (uniq l).
Proof. apply uniq_from_NoDup. Qed.

Lemma assoc_depth k props v : assoc k props = Some v -> depth v < depth (VObj props).
Proof.
  intros H. apply assoc_In in H. simpl. apply Nat.lt_succ_r.
  induction props as [ | [k' x] r IH ]; simpl in *; [ contradiction | ].
  destruct H as [[= -> ->] | H]; [ lia | ]. specialize (IH H). lia.
Qed.

Lemma own_obj props k : own (Some (VObj props)) k = assoc k props.
Proof. unfold own. simpl. destruct (assoc k props); reflexivity. Qed.

Lemma flat_map_nil {A B} (f : A -> list B) l :
  (forall x, In x l -> f x = []) -> flat_map f l = [].
Proof.
  induction l as [ | x r IH ]; simpl; intros H; [ reflexivity | ].
  rewrite H, IH; auto.
Qed.



(** ** Reads off plain objects *)

Lemma getProp_plain v key :
  isPlainObject (Some v) = true ->
  getProp v key = NotFound \/ exists x, getProp v key = Found x.
Proof.
  destruct v as [ [ | | | | | props ] | | ]; try discriminate; intros _; simpl.
  - destruct (assoc key props); [ eauto | ].
    destruct (String.eqb key "__proto__"); [ eauto | ].
    destruct (object_method key); eauto.
  - destruct (String.eqb key "__proto__"); [ eauto | ].
    destruct (object_method key); eauto.
Qed.

Lemma plainProp_own props key x :
  assoc key props = Some x -> plainProp (Json (VObj props)) key = Some (Json x).
Proof. intros H. unfold plainProp. simpl. rewrite H. reflexivity. Qed.

(** A read off a decoded object, for a key that is not [__proto__]: the own
    property, and for a key the object does not own, [undefined] or a
    function. *)
Lemma plainProp_stringify props key :
  key <> "__proto__" ->
  stringify (plainProp (Json (VObj props)) key) = assoc key props.
Proof.
  intros Hk. unfold plainProp. simpl.
  destruct (assoc key props); [ reflexivity | ].
  destruct (String.eqb_spec key "__proto__"); [ contradiction | ].
  destruct (object_method key); reflexivity.
Qed.

Lemma plainProp_not_member props key :
  object_member key = false ->
  plainProp (Json (VObj props)) key = option_map Json (assoc key props).
Proof.
  unfold object_member. intros H. apply orb_false_iff in H as [H1 H2].
  unfold plainProp. simpl. rewrite H1, H2. destruct (assoc key props); reflexivity.
Qed.

Lemma plainProp_depth next key nv :
  plainProp next key = Some nv -> isPlainObject (Some nv) = true ->
  jdepth nv < jdepth next.
Proof.
  unfold plainProp.
  destruct next as [ [ | | | | | props ] | | ]; try discriminate; simpl.
  - destruct (assoc key props) as [ x | ] eqn:E.
    + intros [= <-] _. simpl. eapply assoc_depth; eauto.
    + destruct (String.eqb key "__proto__").
      * intros [= <-] _. simpl. lia.
      * destruct (object_method key); [ | discriminate ]. intros [= <-]. discriminate.
  - destruct (String.eqb key "__proto__"); [ intros [= <-]; discriminate | ].
    destruct (object_method key); [ | discriminate ]. intros [= <-]. discriminate.
Qed.

(** ** Loops that may throw *)

Section Each.
Context {A B : Type} (f : B -> A -> outcome B).

Lemma fold_Throw (l : list A) msg :
  fold_left (fun acc x => let* b := acc in f b x) l (Throw msg) = Throw msg.
Proof. induction l as [ | x r IH ]; simpl; auto. Qed.

Lemma fold_Beyond (l : list A) :
  fold_left (fun acc x => let* b := acc in f b x) l Beyond = Beyond.
Proof. induction l as [ | x r IH ]; simpl; auto. Qed.

Lemma each_cons x (r : list A) b :
  each f (x :: r) b = let* b' := f b x in each f r b'.
Proof.
  unfold each. simpl. destruct (f b x); simpl;
    [ reflexivity | apply fold_Throw | apply fold_Beyond ].
Qed.


Lemma each_invariant (P : B -> Prop) (l : list A) :
  (forall b x b', In x l -> P b -> f b x = Done b' -> P b') ->
  forall b b', P b -> each f l b = Done b' -> P b'.
Proof.
  induction l as [ | x r IH ]; intros Hstep b b' Hb H.
  - injection H as <-. exact Hb.
  - rewrite each_cons in H. destruct (f b x) as [ b1 | | ] eqn:E; try discriminate H.
    simpl in H. apply (IH (fun b0 y b0' Hy => Hstep b0 y b0' (or_intror Hy)) b1); auto.
    eapply Hstep; eauto. left. reflexivity.
Qed.

End Each.


(** ** The recursion of [deepDiffOps] *)

Lemma diffKey_ext (f g : jsval -> jsval -> string -> list patch_op) prev next base key :
  (forall p n b, jdepth n < jdepth next -> f p n b = g p n b) ->
  diffKey f prev next base key = diffKey g prev next base key.
Proof.
  intros Hfg. unfold diffKey.
  destruct (plainProp next key) as [ nv | ] eqn:En; [ | reflexivity ].
  destruct (plainProp prev key) as [ pv | ]; [ | reflexivity ].
  destruct (isPlainObject (Some pv) && isPlainObject (Some nv)) eqn:E; [ | reflexivity ].
  apply andb_prop in E as [_ E]. apply Hfg. eapply plainProp_depth; eauto.
Qed.

Lemma deepDiffOps_rec_enough f1 : forall f2 prev next base,
  jdepth next < f1 -> jdepth next < f2 ->
  deepDiffOps_rec f1 prev next base = deepDiffOps_rec f2 prev next base.
Proof.
  induction f1 as [ | f1 IH ]; intros [ | f2 ] prev next base H1 H2; try lia.
  simpl. apply flat_map_ext. intros key.
  apply diffKey_ext. intros p n b Hd. apply IH; lia.
Qed.

Lemma deepDiffOps_unfold prev next base :
  deepDiffOps prev next base
  = flat_map (diffKey deepDiffOps prev next base) (allKeys prev next).
Proof.
  unfold deepDiffOps at 1. simpl. apply flat_map_ext. intros key.
  apply diffKey_ext. intros p n b Hd. apply deepDiffOps_rec_enough; lia.
Qed.

Lemma allKeys_In prev next k :
  In k (allKeys prev next)
  <-> In k (objectKeys (plain prev)) \/ In k (objectKeys (plain next)).
Proof. unfold allKeys. rewrite uniq_In, in_app_iff. reflexivity. Qed.

Lemma allKeys_prev pa next key v :
  assoc key pa = Some v -> In key (allKeys (Json (VObj pa)) next).
Proof.
  intros H. apply allKeys_In. left. unfold plain. simpl.
  eapply assoc_Some_keys. exact H.
Qed.

Lemma allKeys_next prev pb key v :
  assoc key pb = Some v -> In key (allKeys prev (Json (VObj pb))).
Proof.
  intros H. apply allKeys_In. right. unfold plain. simpl.
  eapply assoc_Some_keys. exact H.
Qed.

(** ** The keyed differ *)









Lemma append_nonempty b s : nonempty b = true -> nonempty (b +:+ s) = true.
Proof. destruct b; [ discriminate | reflexivity ]. Qed.



Lemma some_from_false f l : forall i,
  some_from i f l = false <-> (forall j v, l !! j = Some v -> f v (i + j) = false).
Proof.
  induction l as [ | x r IH ]; intros i; simpl.
  - split; [ intros _ j v H; destruct j; discriminate | reflexivity ].
  - rewrite orb_false_iff, IH. split.
    + intros [H0 H] [ | j ] v Hv; simpl in Hv.
      * injection Hv as <-. rewrite Nat.add_0_r. exact H0.
      * rewrite <- Nat.add_succ_comm. apply H. exact Hv.
    + intros H. split.
      * specialize (H 0 x eq_refl). rewrite Nat.add_0_r in H. exact H.
      * intros j v Hv. rewrite Nat.add_succ_comm. apply H. exact Hv.
Qed.

Lemma array_changed_false p n : array_changed p n = false <-> p = n.
Proof.
  unfold array_changed. rewrite orb_false_iff, negb_false_iff, Nat.eqb_eq, some_from_false.
  split.
  - intros [Hlen H]. apply list_eq_same_length with (length p); auto.
    intros i x y Hi Hx Hy. specialize (H i x Hx). cbv beta in H.
    rewrite Nat.add_0_l in H.
    apply negb_false_iff in H. apply stringify_eqb_eq in H. congruence.
  - intros <-. split; auto. intros j v Hv. cbv beta. rewrite Nat.add_0_l.
    apply negb_false_iff. apply stringify_eqb_eq. auto.
Qed.

Lemma array_changed_same l : array_changed l l = false.
Proof. apply array_changed_false. reflexivity. Qed.
















(** ** The patch of [deepDiffOps] as the subscriber receives it *)








(** ** The recursion of [diffObjects] *)















(** ** Removed keys and [null] *)

(** The iteration for a key the old mapping owns and the new mapping lacks. *)
Lemma diffKey_removed self pa pb base key v :
  assoc key pa = Some v -> assoc key pb = None -> key <> "__proto__" ->
  exists o,
    diffKey self (Json (VObj pa)) (Json (VObj pb)) base key = [o]
    /\ path o = child_path base key
    /\ stringify (val o) = None
    /\ (object_member key = false -> val o = None).
Proof.
  intros Ha Hb Hproto.
  unfold diffKey. rewrite (plainProp_own pa key v Ha).
  pose proof (plainProp_stringify pb key Hproto) as Hs. rewrite Hb in Hs.
  pose proof (plainProp_not_member pb key) as Hm. rewrite Hb in Hm. simpl in Hm.
  destruct (plainProp (Json (VObj pb)) key) as [ [ | | m ] | ] eqn:En;
    try discriminate Hs.
  - eexists. split; [ | split; [ | split ] ].
    + cbn [isPlainObject stringify]. rewrite andb_false_r.
      destruct v; reflexivity.
    + reflexivity.
    + reflexivity.
    + intros Hk. specialize (Hm Hk). discriminate Hm.
  - eexists. repeat split.
Qed.

Lemma tombstone_in_patch pa pb base key v :
  assoc key pa = Some v -> assoc key pb = None -> key <> "__proto__" ->
  exists o,
    In o (deepDiffOps (Json (VObj pa)) (Json (VObj pb)) base)
    /\ path o = child_path base key
    /\ stringify (val o) = None
    /\ (object_member key = false -> val o = None).
Proof.
  intros Ha Hb Hproto.
  destruct (diffKey_removed deepDiffOps pa pb base key v Ha Hb Hproto)
    as (o & E & H1 & H2 & H3).
  exists o. split; [ | auto ].
  rewrite deepDiffOps_unfold. apply in_flat_map. exists key. split.
  - eapply allKeys_prev; eauto.
  - rewrite E. left. reflexivity.
Qed.




(** ** Wagon deltas *)

Lemma isAppendOnly_app O tail : isAppendOnly O (O ++ tail) = true.
Proof.
  unfold isAppendOnly. apply andb_true_intro. split.
  - apply Nat.leb_le. rewrite length_app. lia.
  - apply forallb_forall. intros i Hi. apply in_seq in Hi.
    apply stringify_eqb_eq. rewrite lookup_app_l by lia. reflexivity.
Qed.

Lemma isAppendOnly_differs (O N : list value) i x :
  O !! i = Some x -> N !! i <> Some x -> isAppendOnly O N = false.
Proof.
  intros HO HN. unfold isAppendOnly.
  destruct (Nat.leb (length O) (length N)); [ | reflexivity ]. simpl.
  apply not_true_iff_false. intros H. rewrite forallb_forall in H.
  specialize (H i). apply lookup_lt_Some in HO as Hlt.
  assert (In i (seq 0 (length O))) as Hi by (apply in_seq; lia).
  apply H in Hi. apply stringify_eqb_eq in Hi. congruence.
Qed.

(** What a run of a publish handler of index.js that returned stored and
    sent. *)
Lemma patch_wagon_done state now payload state' ems :
  Patch.publish_wagon state now payload = Done (state', ems) ->
  exists k,
    room_of payload = Done k
    /\ let prev := default Patch.publish_default (state !! k) in
       let next :=
         match own (Some (default (VObj []) payload)) "wagonData" with
         | Some (VArr l) => VArr l
         | _ => Patch.wagonData prev
         end in
       state' = <[k := Patch.mkDocument (Patch.matchData prev) (Patch.overlays prev) next
                          (Some now)]> state
       /\ ems = [(k, wagon_delta (as_array (Patch.wagonData prev)) (as_array next))].
Proof.
  intros H. unfold Patch.publish_wagon, room_of in *.
  destruct payload as [ [ | | | | | ] | ]; try discriminate H;
    cbn [from_option id] in *;
    destruct (keyFor _) as [ k | | ]; try discriminate H;
    cbn [bind] in H; injection H as <- <-; exists k; repeat split.
Qed.

Lemma patch_update_done state now payload state' ems :
  Patch.publish_update state now payload = Done (state', ems) ->
  exists k,
    room_of payload = Done k
    /\ let prev := default Patch.publish_default (state !! k) in
       exists md ov score ops,
         state' = <[k := Patch.mkDocument md ov (Patch.wagonData prev) (Some now)]> state
         /\ (ov = or_empty (Some (Patch.overlays prev))
             \/ exists o, ov = VObj (spread (Some (Patch.overlays prev)) (Some o)))
         /\ ems = match score with [] => [] | _ => [(k, score_update score)] end
                  ++ match ops with [] => [] | _ => [(k, state_patch ops)] end.
Proof.
  intros H. unfold Patch.publish_update, room_of in *.
  destruct payload as [ [ | | | | | ] | ]; try discriminate H;
    cbn [from_option id] in *;
    destruct (keyFor _) as [ k | | ]; try discriminate H;
    cbn [bind] in H; injection H as <- <-; exists k; (split; [ reflexivity | ]);
    cbv zeta;
    first
      [ do 2 eexists; exists [], []; split; [ reflexivity | ];
        split; [ left; reflexivity | reflexivity ]
      | do 4 eexists; (split; [ reflexivity | ]); (split; [ | reflexivity ]);
        match goal with
        | |- context [ own ?pl "overlays" ] =>
            destruct (own pl "overlays");
            [ right; eexists; reflexivity | left; reflexivity ]
        end ].
Qed.

Lemma relay_update_done state now payload state' ems :
  Relay.publish_update state now payload = Done (state', ems) ->
  exists k,
    room_of payload = Done k
    /\ let pl := default (VObj []) payload in
       let prev := default Relay.publish_default (state !! k) in
       let doc :=
         Patch.mkDocument
           (match own (Some pl) "matchData" with
            | Some m => m
            | None => Patch.matchData prev
            end)
           (match own (Some pl) "overlays" with
            | Some o => VObj (spread (Some (Patch.overlays prev)) (Some o))
            | None => Patch.overlays prev
            end)
           (Patch.wagonData prev) (Some now) in
       state' = <[k := doc]> state /\ ems = [(k, match_update doc)].
Proof.
  intros H. unfold Relay.publish_update, room_of in *.
  destruct payload as [ [ | | | | | ] | ]; try discriminate H;
    cbn [from_option id] in *;
    destruct (keyFor _) as [ k | | ]; try discriminate H;
    cbn [bind] in H; injection H as <- <-; exists k; repeat split.
Qed.

Lemma relay_wagon_done state now payload state' ems :
  Relay.publish_wagon state now payload = Done (state', ems) ->
  exists k,
    room_of payload = Done k
    /\ let pl := default (VObj []) payload in
       let prev := default Relay.publish_default (state !! k) in
       let doc :=
         Patch.mkDocument (Patch.matchData prev) (Patch.overlays prev)
           (match own (Some pl) "wagonData" with
            | Some (VArr l) => VArr l
            | _ => Patch.wagonData prev
            end)
           (Some now) in
       state' = <[k := doc]> state /\ ems = [(k, match_update doc)].
Proof.
  intros H. unfold Relay.publish_wagon, room_of in *.
  destruct payload as [ [ | | | | | ] | ]; try discriminate H;
    cbn [from_option id] in *;
    destruct (keyFor _) as [ k | | ]; try discriminate H;
    cbn [bind] in H; injection H as <- <-; exists k; repeat split.
Qed.

(** C2, as amended.  A sequence that extends the stored one by [k >= 0]
    elements sets the append-only flag; with at least one element appended it
    is sent as [wagon-append] with the appended elements and [startIndex] the
    stored length; the stored sequence itself ([k = 0]), and any sequence that
    differs from the stored one at an index the stored one has, is sent whole
    as [wagon-update].  For a tenant key that [keyFor] can compute, the
    handler emits exactly this delta to the tenant's room. *)
Theorem wagon_delta_classifies :
  (forall O tail, isAppendOnly O (O ++ tail) = true)
  /\ (forall O tail,
      tail <> [] -> wagon_delta O (O ++ tail) = wagon_append tail (length O))
  /\ (forall O, wagon_delta O O = wagon_update O)
  /\ (forall (O N : list value) i x,
        O !! i = Some x -> N !! i <> Some x -> wagon_delta O N = wagon_update N)
  /\ (forall state now props N k,
        assoc "wagonData" props = Some (VArr N) ->
        keyFor (assoc "userId" props) = Done k ->
        let prev := default publish_default (state !! k) in
        exists state',
          publish_wagon state now (Some (VObj props))
          = Done (state', [(k, wagon_delta (as_array (wagonData prev)) N)])).
Proof.
  split; [ | split; [ | split; [ | split ] ] ].
  - apply isAppendOnly_app.
  - intros O tail Htail. unfold wagon_delta.
    rewrite isAppendOnly_app. simpl.
    assert (Nat.ltb (length O) (length (O ++ tail)) = true) as ->.
    { apply Nat.ltb_lt. rewrite length_app. destruct tail; [ congruence | simpl; lia ]. }
    rewrite drop_app_length. reflexivity.
  - intros O. unfold wagon_delta. rewrite Nat.ltb_irrefl, andb_false_r. reflexivity.
  - intros O N i x HO HN. unfold wagon_delta.
    rewrite (isAppendOnly_differs O N i x HO HN). reflexivity.
  - intros state now props N k Hw Hk prev. unfold publish_wagon.
    cbn [from_option id]. rewrite !own_obj, Hw, Hk. eexists. reflexivity.
Qed.

Lemma wagon_delta_classifies_witness :
  wagon_delta [VStr "a"; VStr "b"] ([VStr "a"; VStr "b"] ++ [VStr "c"])
  = wagon_append [VStr "c"] 2.
Proof.
  apply (proj1 (proj2 wagon_delta_classifies) [VStr "a"; VStr "b"] [VStr "c"]).
  discriminate.
Defined.

(** C2 as stated fails for [k = 0]: in index.js the stored sequence published
    again is sent whole, as a full replacement.  part_000 detects no append
    at all: [[a; b]] published over the stored [[a]] is queued whole. *)
Lemma wagon_delta_nothing_appended :
  wagon_delta [VStr "a"; VStr "b"] ([VStr "a"; VStr "b"] ++ [])
  = wagon_update [VStr "a"; VStr "b"]
  /\ (exists sv1,
        Batch.publish_wagon
          (Batch.mkServer
             (<["t" := Batch.mkDocument (VObj []) (VObj []) (VArr [VStr "a"]) 1%Z]> ∅)
             [])
          2%Z
          (Some (VObj [("userId", VStr "t"); ("wagonData", VArr [VStr "a"; VStr "b"])]))
        = Done sv1
        /\ Batch.pendingUpdates sv1
           = [("t", [Coalescer.mkUpdate "wagon"
                       (VObj [("wagonData", VArr [VStr "a"; VStr "b"])])])]).
Proof. split; [ reflexivity | eexists; split; reflexivity ]. Qed.

(** ** Payloads that make a handler throw *)

(** C9: the publish handlers of index.js throw on a [null] payload (the
    default [payload = {}] only replaces [undefined]); those of part_000 and
    part_001 throw on a missing payload as well. *)
Theorem publish_null_throws (state : gmap string Patch.Document)
    (sv : Batch.server) (now : timestamp) :
  (exists msg, Patch.publish_update state now (Some VNull) = Throw msg)
  /\ (exists msg, Patch.publish_wagon state now (Some VNull) = Throw msg)
  /\ (exists msg, Batch.publish_update sv now None = Throw msg)
  /\ (exists msg, Snapshot.publish_update sv now (Some VNull) = Throw msg).
Proof. repeat split; eexists; reflexivity. Qed.

(** ** The bulk flush *)

Section Flush.
Import Coalescer.

Lemma sent_to_app k out1 out2 : sent_to k (out1 ++ out2) = sent_to k out1 ++ sent_to k out2.
Proof. apply List.filter_app. Qed.

Lemma flush_one_other acc x k :
  x <> k ->
  assoc k (fst (flush_one acc x)) = assoc k (fst acc)
  /\ sent_to k (snd (flush_one acc x)) = sent_to k (snd acc).
Proof.
  intros Hne. unfold flush_one.
  destruct (Nat.ltb 0 (length (default [] (assoc x (fst acc))))); [ | auto ].
  simpl. split.
  - apply assoc_assign_ne. exact Hne.
  - rewrite sent_to_app. simpl.
    destruct (String.eqb_spec x k); [ contradiction | ]. apply app_nil_r.
Qed.

Lemma flush_one_same acc k :
  default [] (assoc k (fst (flush_one acc k))) = []
  /\ (assoc k (fst acc) = None -> assoc k (fst (flush_one acc k)) = None)
  /\ sent_to k (snd (flush_one acc k))
     = sent_to k (snd acc) ++ bulk_for k (default [] (assoc k (fst acc))).
Proof.
  unfold flush_one.
  destruct (default [] (assoc k (fst acc))) as [ | u us ] eqn:E; simpl.
  - rewrite E, app_nil_r. auto.
  - rewrite assoc_assign_eq, sent_to_app. simpl. rewrite String.eqb_refl.
    repeat split. intros H. rewrite H in E. discriminate.
Qed.

Lemma flush_fold L : forall acc k,
  let res := fold_left flush_one L acc in
  (In k L -> default [] (assoc k (fst res)) = [])
  /\ (~ In k L -> assoc k (fst res) = assoc k (fst acc))
  /\ (assoc k (fst acc) = None -> assoc k (fst res) = None)
  /\ sent_to k (snd res)
     = sent_to k (snd acc)
       ++ (if in_dec string_dec k L then bulk_for k (default [] (assoc k (fst acc))) else []).
Proof.
  induction L as [ | x r IH ]; intros acc k; simpl.
  - rewrite app_nil_r. tauto.
  - destruct (IH (flush_one acc x) k) as (H1 & H2 & H3 & H4).
    destruct (string_dec x k) as [-> | Hne].
    + destruct (flush_one_same acc k) as (S1 & S2 & S3).
      repeat split.
      * intros _. destruct (in_dec string_dec k r) as [Hin | Hout]; [ auto | ].
        rewrite (H2 Hout). exact S1.
      * intros H. exfalso. apply H. auto.
      * auto.
      * rewrite H4, S3, <- app_assoc. f_equal.
        rewrite S1. destruct (in_dec string_dec k r); simpl; apply app_nil_r.
    + destruct (flush_one_other acc x k Hne) as (O1 & O2).
      repeat split.
      * intros [H | H]; [ contradiction | auto ].
      * intros H. rewrite H2; [ exact O1 | ]. intros H'. apply H. auto.
      * intros H. apply H3. rewrite O1. exact H.
      * rewrite H4, O2, O1. f_equal.
        destruct (in_dec string_dec k r) as [Hin | Hout];
          destruct (in_dec string_dec k (x :: r)) as [Hin' | Hout'];
          try reflexivity; exfalso; simpl in *; tauto.
Qed.

Lemma flush_tenant pendingUpdates k :
  sent_to k (snd (flush pendingUpdates))
  = bulk_for k (default [] (assoc k pendingUpdates))
  /\ default [] (assoc k (fst (flush pendingUpdates))) = [].
Proof.
  unfold flush.
  destruct (flush_fold (map fst pendingUpdates) (pendingUpdates, []) k)
    as (H1 & H2 & H3 & H4). simpl in *.
  destruct (in_dec string_dec k (map fst pendingUpdates)) as [Hin | Hout].
  - split; [ exact H4 | auto ].
  - apply assoc_None_keys in Hout as E. rewrite H4, E. simpl.
    rewrite (H3 E). auto.
Qed.

(** [scheduleUpdate] returns unless the tenant key is a name of
    [Object.prototype] that [pendingUpdates] does not own. *)
Lemma scheduleUpdate_cases pendingUpdates u t d :
  match assoc u pendingUpdates with
  | Some queue =>
      scheduleUpdate pendingUpdates u t d
      = Done (assign u (queue ++ [mkUpdate t d]) pendingUpdates)
  | None =>
      if object_member u
      then exists msg, scheduleUpdate pendingUpdates u t d = Throw msg
      else scheduleUpdate pendingUpdates u t d
           = Done (assign u [mkUpdate t d] pendingUpdates)
  end.
Proof.
  unfold scheduleUpdate, queue_of.
  destruct (assoc u pendingUpdates) as [ queue | ] eqn:E; cbn [bind].
  - rewrite E. reflexivity.
  - destruct (object_member u); cbn [bind]; [ eauto | ].
    rewrite assoc_assign_eq. cbn [from_option id app]. rewrite assign_assign. reflexivity.
Qed.

Lemma scheduleUpdate_done pendingUpdates u t d p :
  scheduleUpdate pendingUpdates u t d = Done p ->
  p = assign u (default [] (assoc u pendingUpdates) ++ [mkUpdate t d]) pendingUpdates.
Proof.
  intros H. pose proof (scheduleUpdate_cases pendingUpdates u t d) as Hc.
  destruct (assoc u pendingUpdates) as [ queue | ].
  - rewrite Hc in H. injection H as <-. reflexivity.
  - destruct (object_member u).
    + destruct Hc as (msg & Hc). rewrite Hc in H. discriminate H.
    + rewrite Hc in H. injection H as <-. reflexivity.
Qed.

Lemma scheduleUpdate_schedulable pendingUpdates u t d :
  object_member u = false ->
  exists p, scheduleUpdate pendingUpdates u t d = Done p.
Proof.
  intros Hu. pose proof (scheduleUpdate_cases pendingUpdates u t d) as Hc.
  destruct (assoc u pendingUpdates); [ eauto | ]. rewrite Hu in Hc. eauto.
Qed.

Lemma scheduleUpdate_queue pendingUpdates u t d p k :
  scheduleUpdate pendingUpdates u t d = Done p ->
  default [] (assoc k p)
  = if String.eqb u k
    then default [] (assoc k pendingUpdates) ++ [mkUpdate t d]
    else default [] (assoc k pendingUpdates).
Proof.
  intros H. apply scheduleUpdate_done in H. subst p.
  destruct (String.eqb_spec u k) as [-> | Hne].
  - rewrite assoc_assign_eq. reflexivity.
  - rewrite assoc_assign_ne by exact Hne. reflexivity.
Qed.

Lemma run_Tick p r :
  run p (Tick :: r)
  = let* res := run (fst (flush p)) r in Done (fst res, snd (flush p) :: snd res).
Proof. simpl. destruct (flush p). reflexivity. Qed.

Lemma run_queue steps : forall pendingUpdates p outs k,
  run pendingUpdates steps = Done (p, outs) ->
  default [] (assoc k p)
  = queued_from (default [] (assoc k pendingUpdates)) k steps.
Proof.
  induction steps as [ | [u t d | ] r IH ]; intros p0 p outs k H.
  - injection H as <- _. reflexivity.
  - cbn [run] in H. destruct (scheduleUpdate p0 u t d) as [ p1 | | ] eqn:E;
      try discriminate H.
    cbn [bind] in H. rewrite (IH _ _ _ k H), (scheduleUpdate_queue _ _ _ _ _ k E).
    reflexivity.
  - rewrite run_Tick in H.
    destruct (run (fst (flush p0)) r) as [ [p2 outs2] | | ] eqn:E; try discriminate H.
    cbn [bind fst snd] in H. injection H as <- _.
    rewrite (IH _ _ _ k E). cbn [queued_from]. f_equal.
    apply flush_tenant.
Qed.

Lemma run_schedulable steps : forall pendingUpdates,
  forallb schedulable steps = true ->
  exists p outs, run pendingUpdates steps = Done (p, outs).
Proof.
  induction steps as [ | [u t d | ] r IH ]; intros p0 H.
  - eauto.
  - cbn [forallb schedulable] in H. apply andb_prop in H as [Hu Hr].
    apply negb_true_iff in Hu.
    destruct (scheduleUpdate_schedulable p0 u t d Hu) as (p1 & E).
    cbn [run]. rewrite E. cbn [bind]. apply IH. exact Hr.
  - cbn [forallb schedulable andb] in H. rewrite run_Tick.
    destruct (IH (fst (flush p0)) H) as (p2 & outs2 & E). rewrite E.
    cbn [bind]. eauto.
Qed.

End Flush.

(** C4.  In a run in which every call of [scheduleUpdate] returned, a
    tenant gets, at a tick of the flush timer, the entries queued for it
    since the tick before, all of them in one [bulk-update] message, or no
    message when there are none; its queue is empty afterwards.  The same
    holds of any [pendingUpdates] the callback finds.  Every call of
    [scheduleUpdate] returns when no tenant is named like a member of
    [Object.prototype]. *)
Theorem flush_delivers_queue (steps : list Coalescer.step) (userId : string) :
  (forall pendingUpdates outs,
      Coalescer.run [] steps = Done (pendingUpdates, outs) ->
      Coalescer.sent_to userId (snd (Coalescer.flush pendingUpdates))
      = Coalescer.bulk_for userId (Coalescer.queued userId steps)
      /\ default [] (assoc userId (fst (Coalescer.flush pendingUpdates))) = [])
  /\ (forall p : Coalescer.pending,
        Coalescer.sent_to userId (snd (Coalescer.flush p))
        = Coalescer.bulk_for userId (default [] (assoc userId p))
        /\ default [] (assoc userId (fst (Coalescer.flush p))) = [])
  /\ (forallb Coalescer.schedulable steps = true ->
      exists pendingUpdates outs, Coalescer.run [] steps = Done (pendingUpdates, outs)).
Proof.
  split; [ | split ].
  - intros p outs H. pose proof (run_queue steps [] p outs userId H) as Hq.
    simpl in Hq. destruct (flush_tenant p userId) as [H1 H2].
    split; [ | exact H2 ]. rewrite H1, Hq. reflexivity.
  - intros p. apply flush_tenant.
  - apply run_schedulable.
Qed.

(** ** Fields a publish leaves alone *)

Lemma ensure_lookup (state : gmap string Batch.Document) key now :
  Batch.ensure state key now !! key = Some (default (Batch.fresh now) (state !! key)).
Proof.
  unfold Batch.ensure. destruct (state !! key) eqn:E; simpl.
  - exact E.
  - apply lookup_insert_eq.
Qed.

Lemma ensure_lookup_ne (state : gmap string Batch.Document) key now k :
  k <> key -> Batch.ensure state key now !! k = state !! k.
Proof.
  intros Hne. unfold Batch.ensure. destruct (state !! key); [ reflexivity | ].
  apply lookup_insert_ne. congruence.
Qed.


(** A handler of part_000 or part_001 that returned was given a payload it
    could destructure and a tenant key [keyFor] could compute. *)
Lemma batch_done (body : value -> outcome Batch.server) (payload : option value)
    (r : Batch.server) (run : option value -> outcome Batch.server) :
  (forall p, run p = match p with
                     | None => Throw "TypeError: Cannot destructure property 'userId' of 'undefined' as it is undefined."
                     | Some VNull => Throw "TypeError: Cannot destructure property 'userId' of 'object null' as it is null."
                     | Some pl => body pl
                     end) ->
  run payload = Done r ->
  exists pl, payload = Some pl /\ pl <> VNull /\ body pl = Done r.
Proof.
  intros Hrun H. rewrite Hrun in H.
  destruct payload as [ [ | | | | | ] | ]; try discriminate H;
    eexists; (split; [ reflexivity | ]); (split; [ discriminate | exact H ]).
Qed.


Lemma batch_wagon_run sv now payload sv' :
  Batch.publish_wagon sv now payload = Done sv' ->
  exists pl, payload = Some pl /\ pl <> VNull /\ Batch.wagon_body sv now pl = Done sv'.
Proof. apply batch_done. reflexivity. Qed.

Lemma snapshot_update_run sv now payload sv' :
  Snapshot.publish_update sv now payload = Done sv' ->
  exists pl, payload = Some pl /\ pl <> VNull /\ Snapshot.update_body sv now pl = Done sv'.
Proof. apply batch_done. reflexivity. Qed.

(** What [wagon_body] did when it returned. *)
Lemma wagon_body_done sv now pl sv' :
  Batch.wagon_body sv now pl = Done sv' ->
  exists key,
    keyFor (own (Some pl) "userId") = Done key
    /\ let state1 := Batch.ensure (Batch.state sv) key now in
       let doc := default (Batch.fresh now) (Batch.state sv !! key) in
       (sv' = Batch.mkServer state1 (Batch.pendingUpdates sv)
        /\ (forall w, own (Some pl) "wagonData" = Some w ->
              truthy (Some w) && negb (stringify_eqb (Some w) (Some (Batch.wagonData doc)))
              = false))
       \/ (exists w p,
             own (Some pl) "wagonData" = Some w
             /\ truthy (Some w) = true
             /\ w <> Batch.wagonData doc
             /\ Coalescer.scheduleUpdate (Batch.pendingUpdates sv) key "wagon"
                  (VObj [("wagonData", w)]) = Done p
             /\ sv' = Batch.mkServer
                        (<[key := Batch.mkDocument (Batch.matchData doc) (Batch.overlays doc)
                                    w now]> state1) p).
Proof.
  unfold Batch.wagon_body. intros H.
  destruct (keyFor (own (Some pl) "userId")) as [ key | | ]; try discriminate H.
  cbn [bind] in H. exists key. split; [ reflexivity | ]. cbv zeta.
  rewrite ensure_lookup in H. cbn [from_option id] in H.
  destruct (own (Some pl) "wagonData") as [ w | ].
  - destruct (truthy (Some w) && negb _) eqn:E.
    + destruct (Coalescer.scheduleUpdate _ _ _ _) as [ p | | ] eqn:Ep; try discriminate H.
      cbn [bind] in H. injection H as <-. right. exists w, p.
      apply andb_prop in E as [Et Ed]. apply negb_true_iff in Ed.
      repeat split; auto.
      intros ->. rewrite stringify_eqb_same in Ed. discriminate.
    + injection H as <-. left. split; [ reflexivity | ]. intros w' [= <-]. exact E.
  - injection H as <-. left. split; [ reflexivity | ]. intros w' [=].
Qed.

(** C10.  [publish-wagon] stores the [matchData] and [overlays] it found
    (those of the stored document, the empty mappings for a tenant without
    one), [publish-update] stores the [wagonData] it found, and neither
    touches the document of another tenant; this holds in index.js and for
    [publish-wagon] in part_000.  [k] is the tenant key of the payload. *)
Theorem publish_frame :
  (forall (state : gmap string Patch.Document) now payload state' ems,
      Patch.publish_wagon state now payload = Done (state', ems) ->
      exists k doc',
        keyFor (own (Some (default (VObj []) payload)) "userId") = Done k
        /\ state' !! k = Some doc'
        /\ Patch.matchData doc'
           = Patch.matchData (default Patch.publish_default (state !! k))
        /\ Patch.overlays doc'
           = Patch.overlays (default Patch.publish_default (state !! k))
        /\ (forall k', k' <> k -> state' !! k' = state !! k'))
  /\ (forall (state : gmap string Patch.Document) now payload state' ems,
        Patch.publish_update state now payload = Done (state', ems) ->
        exists k doc',
          keyFor (own (Some (default (VObj []) payload)) "userId") = Done k
          /\ state' !! k = Some doc'
          /\ Patch.wagonData doc'
             = Patch.wagonData (default Patch.publish_default (state !! k))
          /\ (forall k', k' <> k -> state' !! k' = state !! k'))
  /\ (forall (sv : Batch.server) now payload sv',
        Batch.publish_wagon sv now payload = Done sv' ->
        exists k doc',
          keyFor (own payload "userId") = Done k
          /\ Batch.state sv' !! k = Some doc'
          /\ Batch.matchData doc'
             = Batch.matchData (default (Batch.fresh now) (Batch.state sv !! k))
          /\ Batch.overlays doc'
             = Batch.overlays (default (Batch.fresh now) (Batch.state sv !! k))
          /\ (forall k', k' <> k -> Batch.state sv' !! k' = Batch.state sv !! k')).
Proof.
  split; [ | split ].
  - intros state now payload state' ems H.
    apply patch_wagon_done in H as (k & Hk & -> & _). exists k. eexists.
    split; [ exact Hk | ]. split; [ apply lookup_insert_eq | ]. repeat split.
    intros k' Hne. apply lookup_insert_ne. congruence.
  - intros state now payload state' ems H.
    apply patch_update_done in H as (k & Hk & md & ov & score & ops & -> & _).
    exists k. eexists.
    split; [ exact Hk | ]. split; [ apply lookup_insert_eq | ]. repeat split.
    intros k' Hne. apply lookup_insert_ne. congruence.
  - intros sv now payload sv' H.
    apply batch_wagon_run in H as (pl & -> & _ & H).
    apply wagon_body_done in H as (k & Hk & [[-> _] | (w & p & _ & _ & _ & _ & ->)]);
      exists k; eexists; (split; [ exact Hk | ]); cbn [Batch.state].
    + split; [ apply ensure_lookup | ]. repeat split.
      intros k' Hne. apply ensure_lookup_ne. exact Hne.
    + split; [ apply lookup_insert_eq | ]. repeat split.
      intros k' Hne. rewrite lookup_insert_ne by congruence.
      apply ensure_lookup_ne. exact Hne.
Qed.

Lemma publish_frame_witness :
  exists k doc',
    keyFor (own (Some (default (VObj [])
                         (Some (VObj [("userId", VStr "t"); ("wagonData", VArr [VNum 1])]))))
              "userId") = Done k
    /\ (<["t" := Patch.mkDocument (VObj [("over", VNum 3)]) (VObj []) (VArr [VNum 1])
                   (Some 9%Z)]>
          (<["t" := Patch.mkDocument (VObj [("over", VNum 3)]) (VObj []) (VArr []) None]> ∅)
        : gmap string Patch.Document) !! k = Some doc'
    /\ Patch.matchData doc'
       = Patch.matchData
           (default Patch.publish_default
              ((<["t" := Patch.mkDocument (VObj [("over", VNum 3)]) (VObj []) (VArr [])
                           None]> ∅ : gmap string Patch.Document) !! k)).
Proof.
  destruct (proj1 publish_frame
              (<["t" := Patch.mkDocument (VObj [("over", VNum 3)]) (VObj []) (VArr []) None]> ∅)
              9%Z
              (Some (VObj [("userId", VStr "t"); ("wagonData", VArr [VNum 1])]))
              _ _ eq_refl) as (k & doc' & H0 & H1 & H2 & _).
  exists k, doc'. split; [ exact H0 | ]. split; [ exact H1 | exact H2 ].
Defined.

(** ** Reading a tenant nobody wrote *)

(** [keyFor] returns for a string. *)
Lemma keyFor_string u :
  keyFor (Some (VStr u))
  = Done match trim u with EmptyString => "default" | k => k end.
Proof. destruct u; reflexivity. Qed.

Lemma route_key_done userId : exists k, Batch.route_key userId = Done k.
Proof. unfold Batch.route_key. rewrite keyFor_string. eauto. Qed.

(** C8, as amended.  The state routes never fail; [join] returns for every
    [userId] that [keyFor] can convert, and throws the [TypeError] of the
    conversion otherwise.  For a tenant without a stored document, the state
    route and [join] of index.js answer
    [{ matchData: null, overlays: {}, wagonData: [], updatedAt: null }] and
    leave the store as it was.  In part_000 and part_001 [join] stores
    [{ matchData: {}, overlays: {}, wagonData: {}, updatedAt: now }] and sends
    it, and a later [join] sends that same stored document; their state route
    answers [{}] and stores nothing. *)
Theorem read_of_unknown_tenant :
  (forall (state : gmap string Patch.Document) userId,
      exists k,
        keyFor (Some (VStr userId)) = Done k
        /\ (state !! k = None ->
            Patch.get_state state userId
            = Done (state, Patch.mkDocument VNull (VObj []) (VArr []) None)))
  /\ (forall (state : gmap string Patch.Document) payload k,
        keyFor (if truthy payload then own payload "userId" else payload) = Done k ->
        state !! k = None ->
        Patch.join state payload
        = Done (state, k, Patch.mkDocument VNull (VObj []) (VArr []) None))
  /\ (forall (state : gmap string Batch.Document) now later userId k,
        keyFor userId = Done k ->
        let doc := Batch.mkDocument (VObj []) (VObj []) (VObj []) now in
        state !! k = None ->
        Batch.join state now userId = Done (<[k := doc]> state, k, doc)
        /\ Batch.join (<[k := doc]> state) later userId = Done (<[k := doc]> state, k, doc))
  /\ (forall (state : gmap string Batch.Document) userId,
        exists k,
          Batch.route_key userId = Done k
          /\ (state !! k = None -> Batch.get_state state userId = Done (state, None)))
  /\ (forall (state : gmap string Patch.Document) payload msg,
        keyFor (if truthy payload then own payload "userId" else payload) = Throw msg ->
        Patch.join state payload = Throw msg)
  /\ (forall (state : gmap string Batch.Document) now userId msg,
        keyFor userId = Throw msg -> Batch.join state now userId = Throw msg).
Proof.
  split; [ | split; [ | split; [ | split; [ | split ] ] ] ].
  - intros state userId. eexists. split; [ apply keyFor_string | ].
    intros H. unfold Patch.get_state. rewrite keyFor_string. cbn [bind].
    rewrite H. reflexivity.
  - intros state payload k Hk H. unfold Patch.join. rewrite Hk. cbn [bind].
    rewrite H. reflexivity.
  - intros state now later userId k Hk doc H. unfold Batch.join, Batch.ensure.
    rewrite Hk. cbn [bind]. rewrite H, !lookup_insert_eq. split; reflexivity.
  - intros state userId. destruct (route_key_done userId) as (k & Hk).
    exists k. split; [ exact Hk | ].
    intros H. unfold Batch.get_state. rewrite Hk. cbn [bind]. rewrite H. reflexivity.
  - intros state payload msg Hk. unfold Patch.join. rewrite Hk. reflexivity.
  - intros state now userId msg Hk. unfold Batch.join. rewrite Hk. reflexivity.
Qed.

Lemma read_of_unknown_tenant_witness :
  Patch.join ∅ (Some (VObj [("userId", VStr "t")]))
  = Done (∅, "t", Patch.mkDocument VNull (VObj []) (VArr []) None).
Proof.
  exact (proj1 (proj2 read_of_unknown_tenant) ∅ (Some (VObj [("userId", VStr "t")])) "t"
           eq_refl eq_refl).
Defined.

(** C8 as stated fails.  The read paths of index.js answer [matchData: null]
    and store nothing; [join] of part_000 stores a document whose [wagonData]
    is [{}] and whose [updatedAt] is the time of the call; and [join] throws
    for a [userId] that cannot be converted to a string. *)
Lemma read_of_unknown_tenant_not_empty_document :
  Patch.get_state ∅ "t" = Done (∅, Patch.mkDocument VNull (VObj []) (VArr []) None)
  /\ Patch.join ∅ (Some (VObj [("userId", VStr "t")]))
     = Done (∅, "t", Patch.mkDocument VNull (VObj []) (VArr []) None)
  /\ Batch.join ∅ 7%Z (Some (VStr "t"))
     = Done (<["t" := Batch.mkDocument (VObj []) (VObj []) (VObj []) 7%Z]> ∅, "t",
             Batch.mkDocument (VObj []) (VObj []) (VObj []) 7%Z)
  /\ Patch.join ∅ (Some (VObj [("userId", VObj [("toString", VNum 1)])]))
     = Throw "TypeError: Cannot convert object to primitive value"
  /\ Batch.join ∅ 7%Z (Some (VObj [("toString", VNum 1)]))
     = Throw "TypeError: Cannot convert object to primitive value".
Proof. repeat split. Qed.

(** ** Overlays are merged *)

Lemma fold_assign_lookup (es : list (string * value)) : forall acc k,
  distinct (map fst es) = true ->
  assoc k (fold_left (fun a kv => assign (fst kv) (snd kv) a) es acc)
  = match assoc k es with
    | Some v => Some v
    | None => assoc k acc
    end.
Proof.
  induction es as [ | [k0 v0] r IH ]; intros acc k Hd; simpl; [ reflexivity | ].
  simpl in Hd. apply andb_prop in Hd as [H0 Hr]. apply negb_true_iff in H0.
  rewrite IH by exact Hr.
  destruct (String.eqb_spec k k0) as [-> | Hne].
  - assert (assoc k0 r = None) as ->.
    { apply assoc_None_keys. intros H. apply existsb_eqb_In in H. congruence. }
    apply assoc_assign_eq.
  - destruct (assoc k r); [ reflexivity | ]. apply assoc_assign_ne. congruence.
Qed.

Lemma spread_lookup a b k :
  distinct (keys a) = true -> distinct (keys b) = true ->
  assoc k (spread a b)
  = match assoc k (own_entries b) with
    | Some v => Some v
    | None => assoc k (own_entries a)
    end.
Proof.
  intros Ha Hb. unfold spread. rewrite fold_assign_lookup by exact Hb.
  destruct (assoc k (own_entries b)); [ reflexivity | ].
  rewrite fold_assign_lookup by exact Ha.
  destruct (assoc k (own_entries a)); reflexivity.
Qed.

(** C7, as amended.  In index.js, for a tenant key that [keyFor] can compute,
    the overlays stored by [publish-update] for a supplied partial are the
    shallow merge of what was stored with the partial: a key of the partial
    has the partial's value, any other key the value it had.  (part_001
    stores the partial in place of the overlays; part_000 merges when its
    diff is not empty.) *)
Theorem publish_update_merges_overlays
    (state : gmap string Patch.Document) (now : timestamp)
    (props : list (string * value)) (partial : value) (k : string) :
  assoc "overlays" props = Some partial ->
  keyFor (assoc "userId" props) = Done k ->
  let prev := default Patch.publish_default (state !! k) in
  distinct (keys (Some partial)) = true ->
  distinct (keys (Some (Patch.overlays prev))) = true ->
  exists state' ems doc' merged,
    Patch.publish_update state now (Some (VObj props)) = Done (state', ems)
    /\ state' !! k = Some doc'
    /\ Patch.overlays doc' = VObj merged
    /\ forall key,
         assoc key merged
         = match assoc key (own_entries (Some partial)) with
           | Some v => Some v
           | None => assoc key (own_entries (Some (Patch.overlays prev)))
           end.
Proof.
  intros Ho Hk prev Hp Hs. unfold Patch.publish_update. cbn [from_option id].
  rewrite !own_obj, Ho, Hk. cbn [bind]. fold prev.
  do 4 eexists. split; [ reflexivity | ]. split; [ apply lookup_insert_eq | ].
  split; [ reflexivity | ].
  intros key. cbn [Patch.overlays]. apply spread_lookup; assumption.
Qed.

Lemma publish_update_merges_overlays_witness :
  exists state' ems doc' merged,
    Patch.publish_update
      (<["t" := Patch.mkDocument (VObj []) (VObj [("a", VNum 1); ("b", VNum 1)])
                  (VArr []) None]> ∅)
      9%Z (Some (VObj [("userId", VStr "t"); ("overlays", VObj [("b", VNum 2)])]))
    = Done (state', ems)
    /\ state' !! "t" = Some doc'
    /\ Patch.overlays doc' = VObj merged
    /\ forall key,
         assoc key merged
         = match assoc key [("b", VNum 2)] with
           | Some v => Some v
           | None => assoc key [("a", VNum 1); ("b", VNum 1)]
           end.
Proof.
  exact (publish_update_merges_overlays
           (<["t" := Patch.mkDocument (VObj []) (VObj [("a", VNum 1); ("b", VNum 1)])
                       (VArr []) None]> ∅)
           9%Z [("userId", VStr "t"); ("overlays", VObj [("b", VNum 2)])]
           (VObj [("b", VNum 2)]) "t" eq_refl eq_refl eq_refl eq_refl).
Defined.

(** C7 as stated fails in part_001: the partial [{ b: 2 }] takes the place of
    the stored overlays, and the key [a] is gone. *)
Lemma snapshot_publish_update_drops_overlays :
  exists sv',
    Snapshot.publish_update
      (Batch.mkServer
         (<["t" := Batch.mkDocument (VObj []) (VObj [("a", VNum 1)]) (VObj []) 1%Z]> ∅)
         [])
      9%Z (Some (VObj [("userId", VStr "t"); ("overlays", VObj [("b", VNum 2)])]))
    = Done sv'
    /\ Batch.overlays <$> (Batch.state sv' !! "t") = Some (VObj [("b", VNum 2)]).
Proof. eexists. split; reflexivity. Qed.

(** ** Score extraction *)

Lemma scorePatch_fold prevScore nextScore key L : forall acc,
  key <> "__proto__" ->
  assoc key (fold_left (scoreKey prevScore nextScore) L acc)
  = if existsb (String.eqb key) L && negb (sameScore prevScore nextScore key)
    then Some (found (getProp (Json (VObj nextScore)) key))
    else assoc key acc.
Proof.
  intros acc Hkey. revert acc.
  induction L as [ | x r IH ]; intros acc; [ reflexivity | ].
  cbn [fold_left existsb]. rewrite IH.
  destruct (existsb (String.eqb key) r && negb (sameScore prevScore nextScore key)) eqn:E.
  - apply andb_prop in E as [-> ->]. rewrite orb_true_r. reflexivity.
  - unfold scoreKey.
    destruct (String.eqb_spec key x) as [<- | Hne]; cbn [orb].
    + destruct (sameScore prevScore nextScore key) eqn:Es.
      * rewrite andb_false_r. reflexivity.
      * cbn [negb andb].
        rewrite setProp_lookup by exact Hkey. rewrite String.eqb_refl. reflexivity.
    + rewrite E. destruct (sameScore prevScore nextScore x); [ reflexivity | ].
      rewrite setProp_lookup by exact Hkey.
      destruct (String.eqb_spec x key); [ congruence | reflexivity ].
Qed.

Lemma scorePatch_fold_proto prevScore nextScore L : forall acc,
  assoc "__proto__" acc = None ->
  assoc "__proto__" (fold_left (scoreKey prevScore nextScore) L acc) = None.
Proof.
  induction L as [ | x r IH ]; intros acc H; [ exact H | ].
  cbn [fold_left]. apply IH. unfold scoreKey.
  destruct (sameScore prevScore nextScore x); [ exact H | ].
  apply setProp_no_proto. exact H.
Qed.

Lemma scorePatch_fold_distinct prevScore nextScore L : forall acc,
  distinct (map fst acc) = true ->
  distinct (map fst (fold_left (scoreKey prevScore nextScore) L acc)) = true.
Proof.
  induction L as [ | x r IH ]; intros acc H; [ exact H | ].
  cbn [fold_left]. apply IH. unfold scoreKey.
  destruct (sameScore prevScore nextScore x); [ exact H | ].
  apply distinct_setProp. exact H.
Qed.

Lemma scorePatch_distinct prevScore nextScore :
  distinct (map fst (scorePatch prevScore nextScore)) = true.
Proof. apply scorePatch_fold_distinct. reflexivity. Qed.

(** [scorePatch] binds the keys of the old or the new score, other than
    [__proto__], at which [!==] holds, to what [nextScore[key]] reads. *)
Lemma scorePatch_In prevScore nextScore key v :
  In (key, v) (scorePatch prevScore nextScore)
  <-> key <> "__proto__"
      /\ (In key (keys (Some prevScore)) \/ In key (map fst nextScore))
      /\ v = found (getProp (Json (VObj nextScore)) key)
      /\ sameScore prevScore nextScore key = false.
Proof.
  pose proof (scorePatch_distinct prevScore nextScore) as Hd.
  assert (In (key, v) (scorePatch prevScore nextScore)
          <-> assoc key (scorePatch prevScore nextScore) = Some v) as ->.
  { split; [ apply distinct_assoc; exact Hd | apply assoc_In ]. }
  destruct (String.eqb_spec key "__proto__") as [-> | Hkey].
  - unfold scorePatch. rewrite scorePatch_fold_proto by reflexivity.
    split; [ discriminate | intros (H & _); congruence ].
  - unfold scorePatch. rewrite scorePatch_fold by exact Hkey. cbn [assoc].
    destruct (existsb (String.eqb key) _) eqn:Ein; cbn [andb].
    + apply existsb_eqb_In in Ein. rewrite uniq_In, in_app_iff in Ein.
      destruct (sameScore prevScore nextScore key); cbn [negb].
      * split; [ discriminate | intros (_ & _ & _ & H); discriminate ].
      * split; [ intros [= <-]; auto | intros (_ & _ & -> & _); reflexivity ].
    + apply existsb_eqb_out in Ein. rewrite uniq_In, in_app_iff in Ein.
      split; [ discriminate | intros (_ & H & _); contradiction ].
Qed.

Lemma strict_eqb_scalar a b :
  isObjectLike a = false -> isObjectLike b = false ->
  (strict_eqb a b = true <-> a = b).
Proof.
  destruct a as [ [ | x | x | x | | ] | ], b as [ [ | y | y | y | | ] | ];
    simpl; intros Ha Hb; try discriminate; try (split; congruence).
  - rewrite Bool.eqb_true_iff. split; congruence.
  - rewrite Z.eqb_eq. split; congruence.
  - rewrite String.eqb_eq. split; congruence.
Qed.

Lemma sameScore_scalar prevScore nextScore key :
  In key (keys (Some prevScore)) \/ In key (map fst nextScore) ->
  isObjectLike (assoc key nextScore) = false ->
  isObjectLike (own (Some prevScore) key) = false ->
  (sameScore prevScore nextScore key = false
   <-> assoc key nextScore <> own (Some prevScore) key).
Proof.
  intros Hin Hn Hp. unfold sameScore.
  destruct (assoc key nextScore) as [ nv | ] eqn:En;
    destruct (own (Some prevScore) key) as [ pv | ] eqn:Eo.
  - rewrite <- not_true_iff_false, strict_eqb_scalar by assumption. reflexivity.
  - split; [ discriminate | reflexivity ].
  - split; [ discriminate | reflexivity ].
  - exfalso. destruct Hin as [Hin | Hin].
    + unfold own, keys in *. apply assoc_None_keys in Hin; [ exact Hin | ].
      destruct (assoc key (own_entries (Some prevScore))); [ discriminate | reflexivity ].
    + apply assoc_None_keys in En. contradiction.
Qed.

(** C3, as amended.  When the payload carries a mapping [matchData] with a
    mapping [score], [keyFor] can compute the tenant key and the score patch
    is not empty, the handler emits the score patch as [score-update] first,
    and the [state-patch] that may follow holds no operation whose path is
    [matchData.score] or starts with [matchData.score.].  The score patch
    binds exactly the keys of the old or the new score, other than
    [__proto__], whose new value is not identical ([===]) to the old one, to
    the new value: for scalar values these are the keys whose value changed,
    was added or was removed; a key whose new or old value is a sequence or a
    mapping is always included. *)
Theorem score_extraction
    (state : gmap string Patch.Document) (now : timestamp)
    (props m s : list (string * value)) (k : string) :
  assoc "matchData" props = Some (VObj m) ->
  assoc "score" m = Some (VObj s) ->
  keyFor (assoc "userId" props) = Done k ->
  let prev := default Patch.publish_default (state !! k) in
  let prevScore :=
    or_empty (if truthy (Some (Patch.matchData prev))
              then own (Some (Patch.matchData prev)) "score"
              else Some (Patch.matchData prev)) in
  let patch := scorePatch prevScore s in
  patch <> [] ->
  exists state' rest,
    Patch.publish_update state now (Some (VObj props))
    = Done (state', (k, score_update patch) :: rest)
    /\ (forall e, In e rest ->
          exists ops,
            e = (k, state_patch ops)
            /\ forall o, In o ops ->
                 path o <> "matchData.score"
                 /\ String.prefix "matchData.score." (path o) = false)
    /\ (forall key v,
          In (key, v) patch
          <-> key <> "__proto__"
              /\ (In key (keys (Some prevScore)) \/ In key (map fst s))
              /\ v = found (getProp (Json (VObj s)) key)
              /\ sameScore prevScore s key = false)
    /\ (forall key,
          In key (keys (Some prevScore)) \/ In key (map fst s) ->
          isObjectLike (assoc key s) = false ->
          isObjectLike (own (Some prevScore) key) = false ->
          (sameScore prevScore s key = false
           <-> assoc key s <> own (Some prevScore) key)).
Proof.
  intros Hm Hs Hk prev prevScore patch Hpatch.
  unfold Patch.publish_update. cbn [from_option id].
  rewrite !own_obj, Hm, Hk. cbn [bind]. fold prev.
  rewrite own_obj, Hs. fold prevScore. cbn [or_empty truthy].
  subst patch.
  destruct (scorePatch prevScore s) as [ | e0 patch' ] eqn:Ep; [ congruence | ].
  do 2 eexists. split; [ reflexivity | ]. split; [ | split ].
  - intros e He.
    match type of He with
    | In e (match ?ops with [] => [] | _ => _ end) =>
        destruct ops as [ | o1 ops1 ] eqn:Eo; [ contradiction | ];
        rewrite <- Eo in He; destruct He as [<- | []];
        eexists; split; [ reflexivity | ]
    end.
    intros o Ho. apply List.filter_In in Ho as [_ Ho].
    apply negb_true_iff in Ho. unfold under_score in Ho.
    apply orb_false_elim in Ho as [H1 H2]. split; [ | exact H2 ].
    apply String.eqb_neq. exact H1.
  - intros key v. rewrite <- Ep. apply scorePatch_In.
  - apply sameScore_scalar.
Qed.

Lemma score_extraction_witness :
  exists state' rest,
    Patch.publish_update
      (<["t" := Patch.mkDocument
                  (VObj [("score", VObj [("home", VNum 1); ("away", VNum 0)]);
                         ("over", VNum 3)])
                  (VObj []) (VArr []) None]> ∅)
      9%Z
      (Some (VObj [("userId", VStr "t");
                   ("matchData",
                    VObj [("score", VObj [("home", VNum 2); ("away", VNum 0)]);
                          ("over", VNum 4)])]))
    = Done (state', ("t", score_update [("home", Some (Json (VNum 2)))]) :: rest).
Proof.
  destruct (score_extraction
              (<["t" := Patch.mkDocument
                          (VObj [("score", VObj [("home", VNum 1); ("away", VNum 0)]);
                                 ("over", VNum 3)])
                          (VObj []) (VArr []) None]> ∅)
              9%Z
              [("userId", VStr "t");
               ("matchData",
                VObj [("score", VObj [("home", VNum 2); ("away", VNum 0)]);
                      ("over", VNum 4)])]
              [("score", VObj [("home", VNum 2); ("away", VNum 0)]); ("over", VNum 4)]
              [("home", VNum 2); ("away", VNum 0)] "t"
              eq_refl eq_refl eq_refl) as (state' & rest & H & _).
  - discriminate.
  - exists state', rest. exact H.
Defined.

(** C3 as stated fails.  A publish that changes the key [away] of the stored
    score [{ home: [1], away: 0 }] is sent as a [score-update] that also
    carries the unchanged key [home], because the two sequences are not the
    same object.  A publish whose [matchData] has no score mapping any more
    changes the score sub-path without a [score-update]: the removal goes
    into the [state-patch], at the path [matchData.score].  And a score that
    gains the key [__proto__] is sent in the [state-patch], under
    [matchData.score], with no [score-update]. *)
Lemma score_update_carries_unchanged_key :
  (exists state',
      Patch.publish_update
        (<["t" := Patch.mkDocument
                    (VObj [("score", VObj [("home", VArr [VNum 1]); ("away", VNum 0)])])
                    (VObj []) (VArr []) None]> ∅)
        9%Z
        (Some (VObj [("userId", VStr "t");
                     ("matchData",
                      VObj [("score", VObj [("home", VArr [VNum 1]); ("away", VNum 1)])])]))
      = Done (state',
              [("t", score_update [("home", Some (Json (VArr [VNum 1])));
                                   ("away", Some (Json (VNum 1)))])]))
  /\ (exists state',
        Patch.publish_update
          (<["t" := Patch.mkDocument (VObj [("score", VObj [("home", VNum 1)])])
                      (VObj []) (VArr []) None]> ∅)
          9%Z
          (Some (VObj [("userId", VStr "t"); ("matchData", VObj [])]))
        = Done (state', [("t", state_patch [addOp "matchData.score" None])]))
  /\ (exists state',
        Patch.publish_update
          (<["t" := Patch.mkDocument (VObj [("score", VObj [])])
                      (VObj []) (VArr []) None]> ∅)
          9%Z
          (Some (VObj [("userId", VStr "t");
                       ("matchData", VObj [("score", VObj [("__proto__", VNum 5)])])]))
        = Done (state',
                [("t", state_patch [addOp "matchData.score.__proto__"
                                      (Some (Json (VNum 5)))])])).
Proof. repeat split; eexists; reflexivity. Qed.

(** ** Publishing the same payload again *)











Lemma strict_eqb_refl_scalar nv :
  isObjectLike (Some nv) = false -> strict_eqb (Some nv) (Some nv) = true.
Proof. intros H. apply strict_eqb_scalar; auto. Qed.










Lemma replace_field_changed name stored supplied :
  snd (Snapshot.replace_field name stored supplied) = []
  <-> fst (Snapshot.replace_field name stored supplied) = stored.
Proof.
  unfold Snapshot.replace_field. destruct supplied as [ m | ]; [ | tauto ].
  destruct (truthy (Some m) && negb (stringify_eqb (Some m) (Some stored))) eqn:E;
    cbn [fst snd]; [ | tauto ].
  apply andb_prop in E as [_ E]. apply negb_true_iff in E.
  split; [ discriminate | ]. intros ->. rewrite stringify_eqb_same in E. discriminate.
Qed.




(** What [update_body] of part_001 did when it returned. *)
Lemma snapshot_update_done sv now pl sv1 :
  Snapshot.update_body sv now pl = Done sv1 ->
  exists key,
    keyFor (own (Some pl) "userId") = Done key
    /\ let doc0 := default (Batch.fresh now) (Batch.state sv !! key) in
       let md := Snapshot.replace_field "matchData" (Batch.matchData doc0)
                   (own (Some pl) "matchData") in
       let ov := Snapshot.replace_field "overlays" (Batch.overlays doc0)
                   (own (Some pl) "overlays") in
       Batch.state sv1
       = <[key := Batch.mkDocument (fst md) (fst ov) (Batch.wagonData doc0) now]>
           (Batch.ensure (Batch.state sv) key now)
       /\ match snd md ++ snd ov with
          | [] => Batch.pendingUpdates sv1 = Batch.pendingUpdates sv
          | changes =>
              Coalescer.scheduleUpdate (Batch.pendingUpdates sv) key "update" (VObj changes)
              = Done (Batch.pendingUpdates sv1)
          end.
Proof.
  unfold Snapshot.update_body. intros H.
  destruct (keyFor (own (Some pl) "userId")) as [ key | | ]; try discriminate H.
  cbn [bind] in H. rewrite ensure_lookup in H. cbn [from_option id] in H.
  exists key. split; [ reflexivity | ]. cbv zeta.
  destruct (snd _ ++ snd _) as [ | c cs ].
  - cbn [bind] in H. injection H as <-. split; reflexivity.
  - destruct (Coalescer.scheduleUpdate _ _ _ _) as [ p | | ]; try discriminate H.
    cbn [bind] in H. injection H as <-. split; reflexivity.
Qed.






(** * Further properties *)

(** ** Tenant keys *)

Lemma trim_left_fixed s : trim_left (trim_left s) = trim_left s.
Proof.
  induction s as [ | c r IH ]; simpl; [ reflexivity | ].
  destruct (is_space c) eqn:E; [ exact IH | ]. simpl. rewrite E. reflexivity.
Qed.

Lemma trim_right_fixed s : trim_right (trim_right s) = trim_right s.
Proof.
  induction s as [ | c r IH ]; simpl; [ reflexivity | ].
  destruct (trim_right r) as [ | a b ] eqn:E.
  - destruct (is_space c) eqn:Ec; simpl; [ reflexivity | ]. rewrite Ec. reflexivity.
  - change (trim_right (String c (String a b)))
      with (match trim_right (String a b) with
            | EmptyString => if is_space c then EmptyString else String c EmptyString
            | String a' b' => String c (String a' b')
            end).
    rewrite IH. reflexivity.
Qed.

Lemma trim_left_right s : trim_left s = s -> trim_left (trim_right s) = trim_right s.
Proof.
  destruct s as [ | c r ]; simpl; [ reflexivity | ].
  destruct (is_space c) eqn:Ec.
  - intros H. exfalso.
    assert (String.length (trim_left r) <= String.length r) as Hlen.
    { clear. induction r as [ | a b IH ]; simpl; [ lia | ].
      destruct (is_space a); simpl; lia. }
    rewrite H in Hlen. simpl in Hlen. lia.
  - intros _. destruct (trim_right r); simpl; rewrite Ec; reflexivity.
Qed.

Lemma trim_fixed s : trim (trim s) = trim s.
Proof.
  unfold trim. rewrite trim_left_right by apply trim_left_fixed.
  apply trim_right_fixed.
Qed.

Lemma keyFor_cases u k :
  keyFor u = Done k -> k = "default" \/ (exists s, k = trim s /\ trim s <> "").
Proof.
  unfold keyFor. destruct u as [ v | ]; [ | intros [= <-]; auto ].
  destruct (truthy (Some v)); [ | intros [= <-]; auto ].
  destruct (toStr v) as [ s | | ]; try discriminate. cbn [bind].
  destruct (trim s) as [ | a b ] eqn:E; intros [= <-]; [ auto | ].
  right. exists s. rewrite E. split; [ reflexivity | discriminate ].
Qed.

Lemma keyFor_nonempty u k : keyFor u = Done k -> k <> "".
Proof.
  intros H. destruct (keyFor_cases u k H) as [-> | (s & -> & Hs)];
    [ discriminate | exact Hs ].
Qed.

Lemma keyFor_trimmed u k : keyFor u = Done k -> trim k = k.
Proof.
  intros H. destruct (keyFor_cases u k H) as [-> | (s & -> & Hs)];
    [ reflexivity | apply trim_fixed ].
Qed.

Lemma keyFor_fixed u k : keyFor u = Done k -> keyFor (Some (VStr k)) = Done k.
Proof.
  intros H. rewrite keyFor_string, (keyFor_trimmed u k H).
  pose proof (keyFor_nonempty u k H). destruct k; [ congruence | reflexivity ].
Qed.

Lemma keyFor_falsy u : truthy u = false -> keyFor u = Done "default".
Proof.
  unfold keyFor. destruct u as [ v | ]; [ | reflexivity ].
  intros ->. reflexivity.
Qed.

(** X1.  A key [keyFor] returns is never empty and has no white space at
    either end, and normalising it again gives the same key.  A missing,
    [null], empty or white-space-only identifier gives [default].  [keyFor]
    returns for every string; for a mapping it returns [[object Object]]
    unless the mapping has a member [toString], and then it throws the
    [TypeError] of the conversion. *)
Theorem keyFor_normalises :
  (forall u k, keyFor u = Done k -> k <> "")
  /\ keyFor None = Done "default"
  /\ keyFor (Some VNull) = Done "default"
  /\ (forall s, trim s = "" -> keyFor (Some (VStr s)) = Done "default")
  /\ (forall u k, keyFor u = Done k -> trim k = k)
  /\ (forall u k, keyFor u = Done k -> keyFor (Some (VStr k)) = Done k)
  /\ (forall s, exists k, keyFor (Some (VStr s)) = Done k)
  /\ (forall props,
        keyFor (Some (VObj props))
        = match assoc "toString" props with
          | Some _ => Throw "TypeError: Cannot convert object to primitive value"
          | None => Done "[object Object]"
          end).
Proof.
  split; [ exact keyFor_nonempty | ]. split; [ reflexivity | ]. split; [ reflexivity | ].
  split; [ | split; [ exact keyFor_trimmed | split; [ exact keyFor_fixed | split ] ] ].
  - intros s H. rewrite keyFor_string, H. reflexivity.
  - intros s. rewrite keyFor_string. eauto.
  - intros props. unfold keyFor. cbn [truthy toStr].
    destruct (assoc "toString" props); reflexivity.
Qed.

Lemma keyFor_normalises_witness : keyFor (Some (VStr "   ")) = Done "default".
Proof.
  apply (proj1 (proj2 (proj2 (proj2 keyFor_normalises))) "   "). reflexivity.
Defined.

(** ** The publish handlers of index.js *)

Lemma rooms_of_two (k : string) (a b : list emission) (e : emission) :
  (forall x, In x a -> fst x = k) -> (forall x, In x b -> fst x = k) ->
  In e (a ++ b) -> fst e = k.
Proof. intros Ha Hb H. apply in_app_iff in H as [H | H]; auto. Qed.

(** X2.  Whatever a publish handler of index.js (either revision) sends, it
    sends to the room of the tenant the payload names, and to no other
    room. *)
Theorem publish_emits_to_own_room (state : gmap string Patch.Document)
    (now : timestamp) (payload : option value)
    (state' : gmap string Patch.Document) (ems : list emission) :
  Patch.publish_update state now payload = Done (state', ems)
  \/ Patch.publish_wagon state now payload = Done (state', ems)
  \/ Relay.publish_update state now payload = Done (state', ems)
  \/ Relay.publish_wagon state now payload = Done (state', ems) ->
  forall e, In e ems ->
    keyFor (own (Some (default (VObj []) payload)) "userId") = Done (fst e).
Proof.
  intros [H | [H | [H | H]]] e He.
  - apply patch_update_done in H as (k & Hk & md & ov & score & ops & _ & _ & ->).
    apply (rooms_of_two k) in He; [ rewrite He; exact Hk | | ].
    + intros x Hx. destruct score; [ contradiction | ]. destruct Hx as [<- | []]. reflexivity.
    + intros x Hx. destruct ops; [ contradiction | ]. destruct Hx as [<- | []]. reflexivity.
  - apply patch_wagon_done in H as (k & Hk & _ & ->). destruct He as [<- | []]. exact Hk.
  - apply relay_update_done in H as (k & Hk & _ & ->). destruct He as [<- | []]. exact Hk.
  - apply relay_wagon_done in H as (k & Hk & _ & ->). destruct He as [<- | []]. exact Hk.
Qed.

Lemma publish_emits_to_own_room_witness :
  keyFor (own (Some (default (VObj [])
                       (Some (VObj [("userId", VStr " t ");
                                    ("wagonData", VArr [VStr "a"])]))))
            "userId")
  = Done (fst ("t", wagon_append [VStr "a"] 0)).
Proof.
  exact (publish_emits_to_own_room ∅ 1%Z
           (Some (VObj [("userId", VStr " t "); ("wagonData", VArr [VStr "a"])]))
           _ _ (or_intror (or_introl eq_refl))
           ("t", wagon_append [VStr "a"] 0) (or_introl eq_refl)).
Defined.

(** X3.  After a publish handler of index.js (either revision) has returned,
    the state route and [join] for that tenant answer the document the
    handler stored, stamped with the time of the publish, and leave the store
    as it is. *)
Theorem read_after_publish (state : gmap string Patch.Document)
    (now : timestamp) (payload : option value)
    (state' : gmap string Patch.Document) (ems : list emission) :
  Patch.publish_update state now payload = Done (state', ems)
  \/ Patch.publish_wagon state now payload = Done (state', ems)
  \/ Relay.publish_update state now payload = Done (state', ems)
  \/ Relay.publish_wagon state now payload = Done (state', ems) ->
  exists k doc,
    keyFor (own (Some (default (VObj []) payload)) "userId") = Done k
    /\ state' !! k = Some doc
    /\ Patch.updatedAt doc = Some now
    /\ Patch.get_state state' k = Done (state', doc)
    /\ Patch.join state' (Some (VObj [("userId", VStr k)])) = Done (state', k, doc).
Proof.
  intros H.
  assert (exists k doc,
             room_of payload = Done k
             /\ state' = <[k := doc]> state /\ Patch.updatedAt doc = Some now)
    as (k & doc & Hk & -> & Hat).
  { destruct H as [H | [H | [H | H]]].
    - apply patch_update_done in H as (k & Hk & md & ov & score & ops & -> & _). eauto.
    - apply patch_wagon_done in H as (k & Hk & -> & _). eauto.
    - apply relay_update_done in H as (k & Hk & -> & _). eauto.
    - apply relay_wagon_done in H as (k & Hk & -> & _). eauto. }
  pose proof (keyFor_fixed _ _ Hk) as Hfix.
  exists k, doc. split; [ exact Hk | ]. split; [ apply lookup_insert_eq | ].
  split; [ exact Hat | ].
  unfold Patch.get_state, Patch.join.
  assert (truthy (Some (VObj [("userId", VStr k)])) = true) as -> by reflexivity.
  rewrite own_obj. cbn [assoc]. rewrite String.eqb_refl, Hfix. cbn [bind].
  rewrite lookup_insert_eq. split; reflexivity.
Qed.

Lemma read_after_publish_witness :
  exists k doc,
    keyFor (own (Some (default (VObj [])
                         (Some (VObj [("userId", VStr "t");
                                      ("wagonData", VArr [VStr "a"])]))))
              "userId") = Done k
    /\ (<["t" := Patch.mkDocument VNull (VObj []) (VArr [VStr "a"]) (Some 1%Z)]> ∅
        : gmap string Patch.Document) !! k = Some doc
    /\ Patch.updatedAt doc = Some 1%Z.
Proof.
  destruct (read_after_publish ∅ 1%Z
              (Some (VObj [("userId", VStr "t"); ("wagonData", VArr [VStr "a"])]))
              _ _ (or_intror (or_intror (or_intror eq_refl))))
    as (k & doc & H0 & H1 & H2 & _).
  exists k, doc. split; [ exact H0 | ]. split; [ exact H1 | exact H2 ].
Defined.

(** ** More on [deepDiffOps] *)

Lemma deepDiffOps_same_depth : forall m v base,
  jdepth v < m -> deepDiffOps v v base = [].
Proof.
  induction m as [ | m IH ]; intros v base Hm; [ lia | ].
  rewrite deepDiffOps_unfold. apply flat_map_nil. intros key Hkey.
  destruct v as [ [ | | | | | props ] | | name ];
    try (unfold allKeys, plain, objectKeys, keys in Hkey; simpl in Hkey; contradiction).
  unfold diffKey.
  destruct (assoc key props) as [ x | ] eqn:E.
  - rewrite (plainProp_own props key x E).
    destruct x as [ | | | | items | sub ];
      cbn [isPlainObject andb stringify];
      try (rewrite stringify_eqb_same; reflexivity).
    + rewrite array_changed_same. reflexivity.
    + apply IH. apply assoc_depth in E. simpl in *. lia.
  - exfalso. apply assoc_None_keys in E. apply E.
    apply allKeys_In in Hkey. unfold plain, objectKeys, keys in Hkey. simpl in Hkey.
    tauto.
Qed.

Lemma deepDiffOps_refl (v : jsval) (base : string) : deepDiffOps v v base = [].
Proof. apply (deepDiffOps_same_depth (S (jdepth v))). lia. Qed.

(** X4.  A value diffed against itself gives the empty patch, whatever the
    base path; so does a mapping against a copy of it with the keys in
    another order at the top. *)
Theorem deepDiffOps_same :
  (forall v base, deepDiffOps v v base = [])
  /\ (forall pa pb base,
        (forall k, assoc k pa = assoc k pb) ->
        deepDiffOps (Json (VObj pa)) (Json (VObj pb)) base = []).
Proof.
  split; [ exact deepDiffOps_refl | ].
  intros pa pb base Hsame. rewrite deepDiffOps_unfold. apply flat_map_nil.
  intros key Hkey. unfold diffKey.
  destruct (assoc key pb) as [ x | ] eqn:E.
  - rewrite (plainProp_own pb key x E).
    rewrite <- Hsame in E. rewrite (plainProp_own pa key x E).
    destruct x as [ | | | | items | sub ];
      cbn [isPlainObject andb stringify];
      try (rewrite stringify_eqb_same; reflexivity).
    + rewrite array_changed_same. reflexivity.
    + apply deepDiffOps_refl.
  - exfalso. apply allKeys_In in Hkey. unfold plain, objectKeys, keys in Hkey.
    simpl in Hkey.
    destruct Hkey as [Hk | Hk].
    + apply assoc_None_keys in Hk; [ exact Hk | ]. rewrite Hsame. exact E.
    + apply assoc_None_keys in Hk; [ exact Hk | exact E ].
Qed.

Lemma deepDiffOps_same_witness :
  deepDiffOps (Json (VObj [("a", VNum 1); ("b", VArr [VNull])]))
    (Json (VObj [("b", VArr [VNull]); ("a", VNum 1)])) "matchData"
  = [].
Proof.
  apply (proj2 deepDiffOps_same [("a", VNum 1); ("b", VArr [VNull])]
           [("b", VArr [VNull]); ("a", VNum 1)] "matchData").
  intros k. simpl.
  destruct (String.eqb_spec k "a") as [-> | Ha]; [ reflexivity | ].
  destruct (String.eqb_spec k "b") as [-> | Hb]; reflexivity.
Defined.

Lemma scorePatch_fold_same prevScore nextScore L : forall acc,
  (forall key, In key L -> sameScore prevScore nextScore key = true) ->
  fold_left (scoreKey prevScore nextScore) L acc = acc.
Proof.
  induction L as [ | x r IH ]; intros acc H; [ reflexivity | ].
  cbn [fold_left]. unfold scoreKey at 2. rewrite (H x) by (left; reflexivity).
  apply IH. intros key Hkey. apply H. right. exact Hkey.
Qed.

Lemma scorePatch_same s : scalar_valued s = true -> scorePatch (VObj s) s = [].
Proof.
  intros Hs. unfold scorePatch. apply scorePatch_fold_same. intros key Hkey.
  rewrite uniq_In in Hkey. unfold keys in Hkey. cbn [own_entries] in Hkey.
  assert (In key (map fst s)) as Hin by (apply in_app_iff in Hkey; tauto).
  unfold sameScore. rewrite own_obj.
  destruct (assoc key s) as [ v | ] eqn:E.
  - apply assoc_In in E. unfold scalar_valued in Hs. rewrite forallb_forall in Hs.
    specialize (Hs _ E). simpl in Hs. apply negb_true_iff in Hs.
    apply strict_eqb_refl_scalar. exact Hs.
  - apply assoc_None_keys in E. contradiction.
Qed.

(** X5.  In index.js (second revision) a [publish-update] that carries a
    mapping [matchData] and no [overlays], published a second time, emits
    nothing, provided the values of its score mapping (when it has one) are
    scalars. *)
Theorem publish_update_again_is_silent
    (state : gmap string Patch.Document) (now later : timestamp)
    (props m : list (string * value))
    (state1 : gmap string Patch.Document) (ems1 : list emission) :
  assoc "matchData" props = Some (VObj m) ->
  assoc "overlays" props = None ->
  (forall s, assoc "score" m = Some (VObj s) -> scalar_valued s = true) ->
  Patch.publish_update state now (Some (VObj props)) = Done (state1, ems1) ->
  exists state2,
    Patch.publish_update state1 later (Some (VObj props)) = Done (state2, []).
Proof.
  intros Hm Ho Hs H.
  assert (exists k ov wd,
             keyFor (assoc "userId" props) = Done k
             /\ state1 = <[k := Patch.mkDocument (VObj m) ov wd (Some now)]> state)
    as (k & ov & wd & Hk & ->).
  { unfold Patch.publish_update in H. cbn [from_option id] in H.
    rewrite !own_obj, Hm, Ho in H.
    destruct (keyFor (assoc "userId" props)) as [ k | | ]; try discriminate H.
    cbn [bind] in H. injection H as <- _. eauto. }
  unfold Patch.publish_update. cbn [from_option id].
  rewrite !own_obj, Hm, Ho, Hk. cbn [bind].
  rewrite lookup_insert_eq. cbn [from_option id Patch.matchData].
  cbn [or_empty truthy]. rewrite deepDiffOps_refl, own_obj.
  destruct (assoc "score" m) as [ [ | | | | | s ] | ] eqn:E;
    try (eexists; reflexivity).
  cbn [or_empty truthy]. rewrite scorePatch_same by (apply Hs; reflexivity).
  eexists. reflexivity.
Qed.

Lemma publish_update_again_is_silent_witness :
  exists state2,
    Patch.publish_update
      (<["default" := Patch.mkDocument (VObj [("score", VObj [("home", VNum 1)])])
                        (VObj []) (VArr []) (Some 1%Z)]> ∅)
      2%Z (Some (VObj [("matchData", VObj [("score", VObj [("home", VNum 1)])])]))
    = Done (state2, []).
Proof.
  apply (publish_update_again_is_silent ∅ 1%Z 2%Z
           [("matchData", VObj [("score", VObj [("home", VNum 1)])])]
           [("score", VObj [("home", VNum 1)])]
           _ [("default", score_update [("home", Some (Json (VNum 1)))])]).
  - reflexivity.
  - reflexivity.
  - intros s [= <-]. reflexivity.
  - reflexivity.
Defined.

Lemma prefix_append x : forall b s, String.prefix x b = true -> String.prefix x (b +:+ s) = true.
Proof.
  induction x as [ | c r IH ]; intros b s; [ intros _; destruct (b +:+ s); reflexivity | ].
  destruct b as [ | c' b' ]; simpl; [ discriminate | ].
  destruct (ascii_dec c c'); [ apply IH | discriminate ].
Qed.

Lemma prefix_same x : String.prefix x x = true.
Proof.
  induction x as [ | c r IH ]; simpl; [ reflexivity | ].
  destruct (ascii_dec c c); [ exact IH | congruence ].
Qed.

Lemma prefix_trans x : forall y z,
  String.prefix x y = true -> String.prefix y z = true -> String.prefix x z = true.
Proof.
  induction x as [ | c r IH ]; intros y z Hxy Hyz; [ destruct z; reflexivity | ].
  destruct y as [ | c' y' ]; simpl in Hxy; [ discriminate | ].
  destruct z as [ | c'' z' ]; simpl in Hyz; [ discriminate | ].
  destruct (ascii_dec c c') as [ <- | ]; [ | discriminate ].
  simpl. destruct (ascii_dec c c'') as [ _ | ]; [ | discriminate ].
  eapply IH; eauto.
Qed.

Lemma child_path_prefix b k :
  nonempty b = true -> String.prefix (b +:+ ".") (child_path b k) = true.
Proof.
  destruct b as [ | c b' ]; [ discriminate | ]. intros _. cbn [child_path].
  generalize (String c b'). clear. intros b.
  induction b as [ | c r IH ]; simpl.
  - destruct (ascii_dec "." "."); [ destruct k; reflexivity | congruence ].
  - destruct (ascii_dec c c); [ exact IH | congruence ].
Qed.

Lemma child_path_nonempty b k : nonempty b = true -> nonempty (child_path b k) = true.
Proof. destruct b; [ discriminate | reflexivity ]. Qed.

Lemma deepDiffOps_rec_paths fuel : forall prev next base o,
  In o (deepDiffOps_rec fuel prev next base) ->
  op o = "set"
  /\ (nonempty base = true -> String.prefix (base +:+ ".") (path o) = true).
Proof.
  induction fuel as [ | fuel IH ]; intros prev next base o H; [ contradiction | ].
  cbn [deepDiffOps_rec] in H. apply in_flat_map in H as (key & _ & H).
  assert (forall v, In o [addOp (child_path base key) v] ->
            op o = "set"
            /\ (nonempty base = true -> String.prefix (base +:+ ".") (path o) = true))
    as Hadd.
  { intros v [<- | []]. split; [ reflexivity | ]. apply child_path_prefix. }
  unfold diffKey in H.
  destruct (plainProp next key) as [ nv | ]; [ | eapply Hadd; eauto ].
  assert (In o (if negb (stringify_eqb (stringify (plainProp prev key))
                          (stringify (Some nv)))
                then [addOp (child_path base key) (Some nv)] else []) ->
          op o = "set"
          /\ (nonempty base = true -> String.prefix (base +:+ ".") (path o) = true))
    as Hrep.
  { destruct (negb _); [ apply Hadd | contradiction ]. }
  destruct (plainProp prev key) as [ pv | ]; [ | auto ].
  destruct (isPlainObject (Some pv) && isPlainObject (Some nv)).
  - apply IH in H as [H1 H2]. split; [ exact H1 | ]. intros Hb.
    eapply prefix_trans; [ apply (child_path_prefix base key Hb) | ].
    eapply prefix_trans; [ | apply H2, child_path_nonempty, Hb ].
    apply prefix_append, prefix_same.
  - destruct pv as [ [ | | | | pa | ] | | ]; auto.
    destruct nv as [ [ | | | | na | ] | | ]; auto.
    destruct (array_changed pa na); [ eapply Hadd; eauto | contradiction ].
Qed.

(** X6.  Every operation of a patch is a [set], and with a base path its
    path starts with the base path and a dot: the patches of [matchData] and
    of [overlays] never address each other's field. *)
Theorem deepDiffOps_paths_under_base (prev next : jsval) (base : string)
    (o : patch_op) :
  In o (deepDiffOps prev next base) ->
  op o = "set"
  /\ (nonempty base = true -> String.prefix (base +:+ ".") (path o) = true).
Proof. apply deepDiffOps_rec_paths. Qed.

Lemma deepDiffOps_paths_under_base_witness :
  op (addOp "overlays.banner" (Some (Json (VStr "x")))) = "set"
  /\ (nonempty "overlays" = true ->
      String.prefix ("overlays" +:+ ".")
        (path (addOp "overlays.banner" (Some (Json (VStr "x")))))
      = true).
Proof.
  apply (deepDiffOps_paths_under_base (Json (VObj []))
           (Json (VObj [("banner", VStr "x")])) "overlays").
  left. reflexivity.
Defined.

(** X7.  A key whose new value and old value are not both mappings is never
    diffed inside: its iteration emits one operation that replaces the whole
    value (a whole sequence too) when the JSON texts of the old and the new
    value differ, and nothing when they are the same. *)
Theorem diffKey_replaces_whole
    (self : jsval -> jsval -> string -> list patch_op)
    (prev next : jsval) (base key : string) (nv : jsval) :
  plainProp next key = Some nv ->
  let p := plainProp prev key in
  isPlainObject p && isPlainObject (Some nv) = false ->
  diffKey self prev next base key
  = if stringify_eqb (stringify p) (stringify (Some nv)) then []
    else [addOp (child_path base key) (Some nv)].
Proof.
  intros Hn p Hmix. unfold diffKey. rewrite Hn. fold p.
  destruct p as [ pv | ]; [ | destruct (stringify_eqb _ _); reflexivity ].
  rewrite Hmix.
  destruct pv as [ [ | | | | pa | pp ] | | ];
    try (destruct (stringify_eqb _ _); reflexivity).
  destruct nv as [ [ | | | | na | ] | | ];
    try (destruct (stringify_eqb _ _); reflexivity).
  cbn [stringify].
  destruct (array_changed pa na) eqn:E.
  - destruct (stringify_eqb (Some (VArr pa)) (Some (VArr na))) eqn:E'; [ | reflexivity ].
    apply stringify_eqb_eq in E'. injection E' as ->.
    rewrite array_changed_same in E. discriminate.
  - apply array_changed_false in E. subst. rewrite stringify_eqb_same. reflexivity.
Qed.

Lemma diffKey_replaces_whole_witness :
  diffKey deepDiffOps (Json (VObj [("balls", VArr [VNum 1])]))
    (Json (VObj [("balls", VArr [VNum 1; VNum 4])])) "matchData" "balls"
  = [addOp "matchData.balls" (Some (Json (VArr [VNum 1; VNum 4])))].
Proof.
  apply (diffKey_replaces_whole deepDiffOps (Json (VObj [("balls", VArr [VNum 1])]))
           (Json (VObj [("balls", VArr [VNum 1; VNum 4])])) "matchData" "balls"
           (Json (VArr [VNum 1; VNum 4]))); reflexivity.
Defined.

(** X8.  The key set the differ walks holds every key of the old mapping and
    every key of the new one, each once; a value that is no mapping
    contributes no key. *)
Theorem allKeys_once (prev next : jsval) :
  NoDup (allKeys prev next)
  /\ (forall k, In k (allKeys prev next)
                <-> In k (objectKeys (plain prev)) \/ In k (objectKeys (plain next)))
  /\ (isPlainObject (Some prev) = false -> isPlainObject (Some next) = false ->
      allKeys prev next = []).
Proof.
  split; [ apply uniq_NoDup | ]. split.
  - intros k. apply allKeys_In.
  - intros Hp Hn. unfold allKeys, plain. rewrite Hp, Hn. reflexivity.
Qed.

Lemma allKeys_once_witness : allKeys (Json (VNum 1)) (Json (VArr [VNull])) = [].
Proof.
  apply (proj2 (proj2 (allKeys_once (Json (VNum 1)) (Json (VArr [VNull]))))); reflexivity.
Defined.

(** ** More on the wagon sequence *)

Lemma isAppendOnly_extends (O N : list value) :
  isAppendOnly O N = true -> N = O ++ drop (length O) N.
Proof.
  unfold isAppendOnly. intros H. apply andb_prop in H as [Hlen Hall].
  apply Nat.leb_le in Hlen. rewrite forallb_forall in Hall.
  rewrite <- (take_drop (length O) N) at 1. f_equal.
  apply list_eq. intros i.
  destruct (Nat.lt_ge_cases i (length O)) as [Hi | Hi].
  - rewrite lookup_take_lt by exact Hi. symmetry. apply stringify_eqb_eq.
    apply Hall. apply in_seq. lia.
  - rewrite lookup_take_ge by lia. symmetry. apply lookup_ge_None. exact Hi.
Qed.

(** X9.  The append-only flag is set exactly for the sequences that extend
    the stored one.  What the handler sends lets a receiver that holds the
    stored sequence rebuild the new one: a [wagon-append] starts at the
    stored length and its items, which are at least one, appended to the
    stored sequence give the new sequence; a [wagon-update] carries the new
    sequence. *)
Theorem wagon_delta_rebuilds (O N : list value) :
  (isAppendOnly O N = true <-> exists tail, N = O ++ tail)
  /\ (forall items start,
        wagon_delta O N = wagon_append items start ->
        start = length O /\ items <> [] /\ O ++ items = N)
  /\ (forall W, wagon_delta O N = wagon_update W -> W = N).
Proof.
  split; [ | split ].
  - split.
    + intros H. exists (drop (length O) N). apply isAppendOnly_extends. exact H.
    + intros (tail & ->). apply isAppendOnly_app.
  - intros items start H. unfold wagon_delta in H.
    destruct (isAppendOnly O N) eqn:E; [ | discriminate H ].
    destruct (Nat.ltb (length O) (length N)) eqn:El; [ | discriminate H ].
    simpl in H. injection H as <- <-. apply Nat.ltb_lt in El.
    split; [ reflexivity | ]. split.
    + intros Hnil. apply (f_equal length) in Hnil. rewrite length_drop in Hnil.
      simpl in Hnil. lia.
    + symmetry. apply isAppendOnly_extends. exact E.
  - intros W H. unfold wagon_delta in H.
    destruct (isAppendOnly O N && Nat.ltb (length O) (length N)); [ discriminate H | ].
    injection H as <-. reflexivity.
Qed.

Lemma wagon_delta_rebuilds_witness :
  2 = length [VStr "a"; VStr "b"]
  /\ [VStr "c"] <> []
  /\ [VStr "a"; VStr "b"] ++ [VStr "c"] = [VStr "a"; VStr "b"; VStr "c"].
Proof.
  apply (proj1 (proj2 (wagon_delta_rebuilds [VStr "a"; VStr "b"]
                         [VStr "a"; VStr "b"; VStr "c"]))).
  reflexivity.
Defined.

Lemma wagon_delta_same X : wagon_delta X X = wagon_update X.
Proof. unfold wagon_delta. rewrite Nat.ltb_irrefl, andb_false_r. reflexivity. Qed.

(** X10.  A [publish-wagon] of index.js (second revision) whose [wagonData]
    is missing or is no sequence stores the sequence that was stored, and
    still broadcasts: the stored sequence goes out whole as [wagon-update]. *)
Theorem publish_wagon_without_sequence
    (state : gmap string Patch.Document) (now : timestamp) (payload : option value)
    (state' : gmap string Patch.Document) (ems : list emission) :
  (forall l, own (Some (default (VObj []) payload)) "wagonData" <> Some (VArr l)) ->
  Patch.publish_wagon state now payload = Done (state', ems) ->
  exists k,
    keyFor (own (Some (default (VObj []) payload)) "userId") = Done k
    /\ let prev := default Patch.publish_default (state !! k) in
       ems = [(k, wagon_update (as_array (Patch.wagonData prev)))]
       /\ Patch.wagonData <$> (state' !! k) = Some (Patch.wagonData prev).
Proof.
  intros Hw H. apply patch_wagon_done in H as (k & Hk & -> & ->).
  exists k. split; [ exact Hk | ]. cbv zeta.
  set (prev := default Patch.publish_default (state !! k)).
  assert (match own (Some (default (VObj []) payload)) "wagonData" with
          | Some (VArr l) => VArr l
          | _ => Patch.wagonData prev
          end = Patch.wagonData prev) as ->.
  { destruct (own _ "wagonData") as [ [ | | | | l | ] | ]; try reflexivity.
    exfalso. apply (Hw l). reflexivity. }
  rewrite wagon_delta_same, lookup_insert_eq. split; reflexivity.
Qed.

Lemma publish_wagon_without_sequence_witness :
  exists k,
    keyFor (own (Some (default (VObj [])
                         (Some (VObj [("userId", VStr "t"); ("wagonData", VStr "no")]))))
              "userId") = Done k
    /\ [("t", wagon_delta [VNum 1] [VNum 1])] = [(k, wagon_update [VNum 1])].
Proof.
  destruct (publish_wagon_without_sequence
              (<["t" := Patch.mkDocument (VObj []) (VObj []) (VArr [VNum 1]) None]> ∅)
              2%Z (Some (VObj [("userId", VStr "t"); ("wagonData", VStr "no")]))
              _ _ ltac:(intros l; discriminate) eq_refl) as (k & Hk & H & _).
  exists k. split; [ exact Hk | ]. injection Hk as <-. exact H.
Defined.

(** ** More on [publish-update] of index.js *)

(** X11.  A [publish-update] of index.js (second revision) whose payload has
    neither [matchData] nor [overlays] emits nothing.  It stores the wagon
    data it found and a new time stamp; [matchData] and [overlays] stay as
    they are when they are truthy, and become the empty mapping when they are
    falsy ([null], [0], [false] or the empty string). *)
Theorem publish_update_without_fields
    (state : gmap string Patch.Document) (now : timestamp) (payload : option value)
    (state' : gmap string Patch.Document) (ems : list emission) :
  own (Some (default (VObj []) payload)) "matchData" = None ->
  own (Some (default (VObj []) payload)) "overlays" = None ->
  Patch.publish_update state now payload = Done (state', ems) ->
  exists k,
    keyFor (own (Some (default (VObj []) payload)) "userId") = Done k
    /\ let prev := default Patch.publish_default (state !! k) in
       ems = []
       /\ state' !! k
          = Some (Patch.mkDocument
                    (if truthy (Some (Patch.matchData prev)) then Patch.matchData prev
                     else VObj [])
                    (if truthy (Some (Patch.overlays prev)) then Patch.overlays prev
                     else VObj [])
                    (Patch.wagonData prev) (Some now)).
Proof.
  intros Hm Ho H. unfold Patch.publish_update in H.
  assert (exists pl, default (VObj []) payload = pl /\ pl <> VNull) as (pl & Epl & Hpl).
  { destruct payload as [ [ | | | | | ] | ]; try discriminate H; eexists; split;
      try reflexivity; discriminate. }
  rewrite Epl in *.
  destruct pl; try congruence; rewrite Hm, Ho in H;
    destruct (keyFor _) as [ k | | ]; try discriminate H;
    cbn [bind] in H; injection H as <- <-;
    exists k; (split; [ reflexivity | ]); cbv zeta;
    rewrite lookup_insert_eq; split; reflexivity.
Qed.

Lemma publish_update_without_fields_witness :
  exists k,
    keyFor (own (Some (default (VObj []) None)) "userId") = Done k
    /\ ([] : list emission) = []
    /\ (<["default" := Patch.mkDocument (VObj []) (VObj []) (VArr []) (Some 5%Z)]>
          (<["default" := Patch.mkDocument VNull (VObj []) (VArr []) None]> ∅)
        : gmap string Patch.Document) !! k
       = Some (Patch.mkDocument (VObj []) (VObj []) (VArr []) (Some 5%Z)).
Proof.
  destruct (publish_update_without_fields
              (<["default" := Patch.mkDocument VNull (VObj []) (VArr []) None]> ∅)
              5%Z None _ _ eq_refl eq_refl eq_refl) as (k & Hk & H1 & H2).
  exists k. split; [ exact Hk | ]. split; [ exact H1 | ].
  injection Hk as <-. exact H2.
Defined.

(** X12.  In index.js (second revision) the overlays are diffed against the
    partial, not against the merged overlays: for a key other than
    [__proto__] that the stored overlays bind and the partial leaves out, the
    [state-patch] holds an operation at the key's path that arrives without
    a value, telling the subscribers that the key was removed, while the
    stored overlays keep it with its value. *)
Theorem publish_update_overlay_tombstone
    (state : gmap string Patch.Document) (now : timestamp)
    (props o po : list (string * value)) (a : string) (v : value) (k : string) :
  assoc "overlays" props = Some (VObj o) ->
  keyFor (assoc "userId" props) = Done k ->
  let prev := default Patch.publish_default (state !! k) in
  Patch.overlays prev = VObj po ->
  distinct (map fst po) = true -> distinct (map fst o) = true ->
  assoc a po = Some v -> assoc a o = None -> a <> "__proto__" ->
  exists state' ems ops merged tomb,
    Patch.publish_update state now (Some (VObj props)) = Done (state', ems)
    /\ In (k, state_patch ops) ems
    /\ In tomb ops
    /\ path tomb = "overlays." +:+ a
    /\ stringify (val tomb) = None
    /\ (object_member a = false -> val tomb = None)
    /\ Patch.overlays <$> (state' !! k) = Some (VObj merged)
    /\ assoc a merged = Some v.
Proof.
  intros Ho Hk prev Hprev Hdp Hdo Hpa Hoa Hproto.
  unfold Patch.publish_update. cbn [from_option id].
  rewrite !own_obj, Ho, Hk. cbn [bind]. fold prev. rewrite Hprev.
  cbn [or_empty truthy].
  set (ops1 := match assoc "matchData" props with
               | Some (VObj m) => deepDiffOps _ _ "matchData"
               | _ => []
               end).
  set (score := match assoc "matchData" props with
                | Some (VObj m) => _
                | _ => []
                end).
  set (ops2 := deepDiffOps (Json (VObj po)) (Json (VObj o)) "overlays").
  destruct (tombstone_in_patch po o "overlays" a v Hpa Hoa Hproto)
    as (tomb & Hin2 & Hpath & Hval & Hmem).
  fold ops2 in Hin2.
  assert (In tomb (ops1 ++ ops2)) as Hin by (apply in_app_iff; auto).
  assert (In tomb (List.filter (fun x => negb (under_score x)) (ops1 ++ ops2))) as Hinf.
  { apply filter_In. split; [ exact Hin | ]. unfold under_score. rewrite Hpath.
    reflexivity. }
  set (kept := match score with
               | [] => ops1 ++ ops2
               | _ => List.filter (fun x => negb (under_score x)) (ops1 ++ ops2)
               end).
  assert (In tomb kept) as Hkept by (unfold kept; destruct score; assumption).
  exists (<[k := Patch.mkDocument
                   (match assoc "matchData" props with
                    | Some m => m
                    | None => or_empty (Some (Patch.matchData prev))
                    end)
                   (VObj (spread (Some (VObj po)) (Some (VObj o))))
                   (Patch.wagonData prev) (Some now)]> state).
  exists (match score with [] => [] | _ => [(k, score_update score)] end
          ++ [(k, state_patch kept)]), kept, (spread (Some (VObj po)) (Some (VObj o))), tomb.
  split; [ | split; [ | split; [ exact Hkept | split; [ exact Hpath | ] ] ] ].
  - destruct kept as [ | x xs ] eqn:E; [ contradiction | ]. reflexivity.
  - apply in_app_iff. right. left. reflexivity.
  - split; [ exact Hval | ]. split; [ exact Hmem | ]. split.
    + rewrite lookup_insert_eq. reflexivity.
    + rewrite spread_lookup by assumption. cbn [own_entries]. rewrite Hoa. exact Hpa.
Qed.

Lemma publish_update_overlay_tombstone_witness :
  exists state' ems ops merged tomb,
    Patch.publish_update
      (<["t" := Patch.mkDocument (VObj []) (VObj [("a", VNum 1)]) (VArr []) None]> ∅)
      9%Z (Some (VObj [("userId", VStr "t"); ("overlays", VObj [("b", VNum 2)])]))
    = Done (state', ems)
    /\ In ("t", state_patch ops) ems
    /\ In tomb ops
    /\ path tomb = "overlays." +:+ "a"
    /\ stringify (val tomb) = None
    /\ (object_member "a" = false -> val tomb = None)
    /\ Patch.overlays <$> (state' !! "t") = Some (VObj merged)
    /\ assoc "a" merged = Some (VNum 1).
Proof.
  exact (publish_update_overlay_tombstone
           (<["t" := Patch.mkDocument (VObj []) (VObj [("a", VNum 1)]) (VArr []) None]> ∅)
           9%Z [("userId", VStr "t"); ("overlays", VObj [("b", VNum 2)])]
           [("b", VNum 2)] [("a", VNum 1)] "a" (VNum 1) "t"
           eq_refl eq_refl eq_refl eq_refl eq_refl eq_refl eq_refl
           ltac:(discriminate)).
Defined.

(** ** Shapes the handlers of index.js keep *)

Lemma all_docs_insert {D} (ok : D -> bool) (state : gmap string D) k doc :
  all_docs ok state -> ok doc = true -> all_docs ok (<[k := doc]> state).
Proof.
  intros Hall Hdoc k' doc' H. destruct (decide (k = k')) as [<- | Hne].
  - rewrite lookup_insert_eq in H. congruence.
  - rewrite lookup_insert_ne in H by exact Hne. eauto.
Qed.

Lemma all_docs_default {D} (ok : D -> bool) (state : gmap string D) k d :
  all_docs ok state -> ok d = true -> ok (default d (state !! k)) = true.
Proof.
  intros Hall Hd. destruct (state !! k) eqn:E; simpl; eauto.
Qed.

Lemma or_empty_mapping v : mapping (Some v) = true -> or_empty (Some v) = v.
Proof. destruct v; try discriminate. reflexivity. Qed.

(** X13.  The publish handlers of index.js (either revision) keep the shape
    of the store: when the overlays of every stored document are a mapping
    and its wagon data a sequence, as in the empty store, the same holds
    after the handler. *)
Theorem publish_keeps_shape (state : gmap string Patch.Document)
    (now : timestamp) (payload : option value)
    (state' : gmap string Patch.Document) (ems : list emission) :
  all_docs patch_shaped state ->
  Patch.publish_update state now payload = Done (state', ems)
  \/ Patch.publish_wagon state now payload = Done (state', ems)
  \/ Relay.publish_update state now payload = Done (state', ems)
  \/ Relay.publish_wagon state now payload = Done (state', ems) ->
  all_docs patch_shaped state'.
Proof.
  intros Hall H.
  assert (forall k, patch_shaped (default Patch.publish_default (state !! k)) = true)
    as Hprev by (intros k; apply all_docs_default; auto).
  assert (forall k, patch_shaped (default Relay.publish_default (state !! k)) = true)
    as Hprev' by (intros k; apply all_docs_default; auto).
  destruct H as [H | [H | [H | H]]].
  - apply patch_update_done in H as (k & _ & md & ov & score & ops & -> & Hov & _).
    specialize (Hprev k). unfold patch_shaped in Hprev.
    apply andb_prop in Hprev as [Ho Hw].
    apply all_docs_insert; [ exact Hall | ].
    unfold patch_shaped. cbn [Patch.overlays Patch.wagonData].
    apply andb_true_intro. split; [ | exact Hw ].
    destruct Hov as [-> | (o & ->)]; [ | reflexivity ].
    rewrite or_empty_mapping by exact Ho. exact Ho.
  - apply patch_wagon_done in H as (k & _ & -> & _).
    specialize (Hprev k). unfold patch_shaped in Hprev.
    apply andb_prop in Hprev as [Ho Hw].
    apply all_docs_insert; [ exact Hall | ].
    unfold patch_shaped. cbn [Patch.overlays Patch.wagonData].
    apply andb_true_intro. split; [ exact Ho | ].
    destruct (own _ "wagonData") as [ [ | | | | | ] | ]; auto.
  - apply relay_update_done in H as (k & _ & -> & _).
    specialize (Hprev' k). unfold patch_shaped in Hprev'.
    apply andb_prop in Hprev' as [Ho' Hw'].
    apply all_docs_insert; [ exact Hall | ].
    unfold patch_shaped. cbn [Patch.overlays Patch.wagonData].
    apply andb_true_intro. split; [ | exact Hw' ].
    destruct (own _ "overlays"); [ reflexivity | exact Ho' ].
  - apply relay_wagon_done in H as (k & _ & -> & _).
    specialize (Hprev' k). unfold patch_shaped in Hprev'.
    apply andb_prop in Hprev' as [Ho' Hw'].
    apply all_docs_insert; [ exact Hall | ].
    unfold patch_shaped. cbn [Patch.overlays Patch.wagonData].
    apply andb_true_intro. split; [ exact Ho' | ].
    destruct (own _ "wagonData") as [ [ | | | | | ] | ]; auto.
Qed.

Lemma publish_keeps_shape_witness :
  all_docs patch_shaped
    (<["t" := Patch.mkDocument (VNum 7) (VObj []) (VArr []) (Some 1%Z)]>
       (∅ : gmap string Patch.Document)).
Proof.
  apply (publish_keeps_shape ∅ 1%Z
           (Some (VObj [("userId", VStr "t"); ("matchData", VNum 7)])) _ []).
  - intros k doc H. rewrite lookup_empty in H. discriminate.
  - left. reflexivity.
Defined.

(** ** The first revision of index.js *)

(** X14.  In the first revision of index.js a publish handler broadcasts one
    [match-update] to the tenant's room, and the document it carries is the
    document the handler stored, which a read of the state route answers
    afterwards.  [publish-update] keeps the stored wagon data, [publish-wagon]
    keeps the stored match data and overlays, and no other tenant's document
    changes. *)
Theorem relay_broadcasts_stored_document :
  (forall (state : gmap string Patch.Document) now payload state' ems,
      Relay.publish_update state now payload = Done (state', ems) ->
      exists k doc,
        keyFor (own (Some (default (VObj []) payload)) "userId") = Done k
        /\ ems = [(k, match_update doc)]
        /\ state' !! k = Some doc
        /\ Patch.get_state state' k = Done (state', doc)
        /\ (forall k', k' <> k -> state' !! k' = state !! k')
        /\ Patch.wagonData doc
           = Patch.wagonData (default Relay.publish_default (state !! k)))
  /\ (forall (state : gmap string Patch.Document) now payload state' ems,
        Relay.publish_wagon state now payload = Done (state', ems) ->
        exists k doc,
          keyFor (own (Some (default (VObj []) payload)) "userId") = Done k
          /\ ems = [(k, match_update doc)]
          /\ state' !! k = Some doc
          /\ Patch.get_state state' k = Done (state', doc)
          /\ (forall k', k' <> k -> state' !! k' = state !! k')
          /\ Patch.matchData doc
             = Patch.matchData (default Relay.publish_default (state !! k))
          /\ Patch.overlays doc
             = Patch.overlays (default Relay.publish_default (state !! k))).
Proof.
  split.
  - intros state now payload state' ems H.
    apply relay_update_done in H as (k & Hk & -> & ->). exists k. eexists.
    split; [ exact Hk | ].
    split; [ reflexivity | ]. split; [ apply lookup_insert_eq | ].
    split; [ | split; [ | reflexivity ] ].
    + unfold Patch.get_state. rewrite (keyFor_fixed _ _ Hk). cbn [bind].
      rewrite lookup_insert_eq. reflexivity.
    + intros k' Hk'. apply lookup_insert_ne. congruence.
  - intros state now payload state' ems H.
    apply relay_wagon_done in H as (k & Hk & -> & ->). exists k. eexists.
    split; [ exact Hk | ].
    split; [ reflexivity | ]. split; [ apply lookup_insert_eq | ].
    split; [ | split; [ | split; reflexivity ] ].
    + unfold Patch.get_state. rewrite (keyFor_fixed _ _ Hk). cbn [bind].
      rewrite lookup_insert_eq. reflexivity.
    + intros k' Hk'. apply lookup_insert_ne. congruence.
Qed.

Lemma relay_broadcasts_stored_document_witness :
  exists k doc,
    keyFor (own (Some (default (VObj [])
                         (Some (VObj [("userId", VStr "t"); ("matchData", VNum 7)]))))
              "userId") = Done k
    /\ [("t", match_update
                (Patch.mkDocument (VNum 7) (VObj []) (VArr []) (Some 1%Z)))]
       = [(k, match_update doc)].
Proof.
  destruct (proj1 relay_broadcasts_stored_document ∅ 1%Z
              (Some (VObj [("userId", VStr "t"); ("matchData", VNum 7)]))
              _ _ eq_refl) as (k & doc & Hk & H & _).
  exists k, doc. split; [ exact Hk | exact H ].
Defined.

(** ** More on the coalescer *)

Section MoreFlush.
Import Coalescer.

Lemma flush_one_keys acc x :
  map fst (fst (flush_one acc x)) = map fst (fst acc).
Proof.
  unfold flush_one.
  destruct (default [] (assoc x (fst acc))) as [ | u us ] eqn:E; simpl; [ reflexivity | ].
  apply keys_assign_present.
  destruct (assoc x (fst acc)) eqn:Ea; [ | discriminate E ].
  eapply assoc_Some_keys; eauto.
Qed.

Lemma flush_keys p : map fst (fst (flush p)) = map fst p.
Proof.
  unfold flush. generalize (map fst p) at 1. intros L.
  change (map fst p) with (map fst (fst (p, @nil emission))).
  generalize (p, @nil emission). induction L as [ | x r IH ]; intros acc; simpl.
  - reflexivity.
  - rewrite IH. apply flush_one_keys.
Qed.

Lemma flush_nothing_queued q :
  (forall k, default [] (assoc k q) = []) -> flush q = (q, []).
Proof.
  intros H. unfold flush. generalize (map fst q). intros L.
  induction L as [ | x r IH ]; simpl; [ reflexivity | ].
  unfold flush_one at 2. simpl. rewrite H. simpl. exact IH.
Qed.

(** X15.  A flush right after a flush sends nothing and changes nothing, and
    a flush never drops a tenant from [pendingUpdates]: the keys stay, in
    their order, with empty queues. *)
Theorem flush_again_is_silent (pendingUpdates : pending) :
  flush (fst (flush pendingUpdates)) = (fst (flush pendingUpdates), [])
  /\ map fst (fst (flush pendingUpdates)) = map fst pendingUpdates.
Proof.
  split; [ | apply flush_keys ].
  apply flush_nothing_queued. intros k. apply flush_tenant.
Qed.

Lemma flush_fold_distinct rest : forall pre out,
  distinct (map fst (pre ++ rest)) = true ->
  fold_left flush_one (map fst rest) (pre ++ rest, out)
  = (pre ++ map (fun kv => (fst kv, [])) rest,
     out ++ flat_map (fun kv => bulk_for (fst kv) (snd kv)) rest).
Proof.
  induction rest as [ | [k us] r IH ]; intros pre out Hd; simpl.
  - rewrite !app_nil_r. reflexivity.
  - assert (~ In k (map fst pre)) as Hk.
    { rewrite map_app in Hd. apply distinct_app in Hd as (_ & _ & Hd).
      intros H. apply (Hd k H). left. reflexivity. }
    assert (flush_one (pre ++ (k, us) :: r, out) k
            = ((pre ++ [(k, [])]) ++ r, out ++ bulk_for k us)) as ->.
    { unfold flush_one. cbn [fst snd]. rewrite assoc_app_out by exact Hk.
      cbn [assoc]. rewrite String.eqb_refl. cbn [from_option id].
      destruct us as [ | u us' ]; simpl.
      - rewrite app_nil_r, <- app_assoc. reflexivity.
      - rewrite assign_app_out by (first [ exact Hk | left; reflexivity ]).
        unfold assign. cbn [map fst existsb replace_key].
        rewrite String.eqb_refl. cbn [orb].
        rewrite <- app_assoc. reflexivity. }
    rewrite IH.
    + rewrite <- !app_assoc. reflexivity.
    + rewrite <- app_assoc. rewrite !map_app in *. exact Hd.
Qed.

(** X16.  When no tenant occurs twice in [pendingUpdates], a flush sends, in
    the order of [pendingUpdates], one [bulk-update] to every tenant whose
    queue is not empty, carrying that queue, and nothing else; afterwards
    every tenant is still there with an empty queue. *)
Theorem flush_sends_every_queue (pendingUpdates : pending) :
  distinct (map fst pendingUpdates) = true ->
  flush pendingUpdates
  = (map (fun kv => (fst kv, [])) pendingUpdates,
     flat_map (fun kv => bulk_for (fst kv) (snd kv)) pendingUpdates).
Proof.
  intros Hd. unfold flush. apply (flush_fold_distinct pendingUpdates [] []). exact Hd.
Qed.

Lemma flush_sends_every_queue_witness :
  flush [("a", [mkUpdate "update" VNull]); ("b", []); ("c", [mkUpdate "wagon" VNull])]
  = ([("a", []); ("b", []); ("c", [])],
     [("a", [mkUpdate "update" VNull]); ("c", [mkUpdate "wagon" VNull])]).
Proof.
  apply (flush_sends_every_queue
           [("a", [mkUpdate "update" VNull]); ("b", []); ("c", [mkUpdate "wagon" VNull])]).
  reflexivity.
Defined.

Lemma scheduleUpdate_keys p u t d p' x :
  scheduleUpdate p u t d = Done p' ->
  (In x (map fst p') <-> x = u \/ In x (map fst p)).
Proof.
  intros H. apply scheduleUpdate_done in H. subst p'. apply keys_assign.
Qed.

Lemma scheduleUpdate_distinct p u t d p' :
  distinct (map fst p) = true -> scheduleUpdate p u t d = Done p' ->
  distinct (map fst p') = true.
Proof.
  intros Hd H. apply scheduleUpdate_done in H. subst p'. apply distinct_assign. exact Hd.
Qed.

Lemma run_distinct steps : forall p p' outs,
  distinct (map fst p) = true -> run p steps = Done (p', outs) ->
  distinct (map fst p') = true.
Proof.
  induction steps as [ | [u t d | ] r IH ]; intros p p' outs Hd H.
  - injection H as <- _. exact Hd.
  - cbn [run] in H. destruct (scheduleUpdate p u t d) as [ p1 | | ] eqn:E;
      try discriminate H.
    cbn [bind] in H. eapply IH; [ | exact H ].
    eapply scheduleUpdate_distinct; eauto.
  - rewrite run_Tick in H.
    destruct (run (fst (flush p)) r) as [ [p2 outs2] | | ] eqn:E; try discriminate H.
    cbn [bind fst snd] in H. injection H as <- _.
    eapply IH; [ | exact E ]. rewrite flush_keys. exact Hd.
Qed.

Lemma run_keeps steps : forall p p' outs u,
  In u (map fst p) -> run p steps = Done (p', outs) -> In u (map fst p').
Proof.
  induction steps as [ | [u' t d | ] r IH ]; intros p p' outs u Hu H.
  - injection H as <- _. exact Hu.
  - cbn [run] in H. destruct (scheduleUpdate p u' t d) as [ p1 | | ] eqn:E;
      try discriminate H.
    cbn [bind] in H. eapply IH; [ | exact H ].
    apply (scheduleUpdate_keys _ _ _ _ _ u E). right. exact Hu.
  - rewrite run_Tick in H.
    destruct (run (fst (flush p)) r) as [ [p2 outs2] | | ] eqn:E; try discriminate H.
    cbn [bind fst snd] in H. injection H as <- _.
    eapply IH; [ | exact E ]. rewrite flush_keys. exact Hu.
Qed.

Lemma run_app s1 : forall s2 p p' outs,
  run p (s1 ++ s2) = Done (p', outs) ->
  exists p1 outs1 outs2,
    run p s1 = Done (p1, outs1) /\ run p1 s2 = Done (p', outs2).
Proof.
  induction s1 as [ | [u t d | ] r IH ]; intros s2 p p' outs H.
  - exists p, [], outs. split; [ reflexivity | exact H ].
  - cbn [app run] in *. destruct (scheduleUpdate p u t d) as [ p1 | | ];
      try discriminate H.
    cbn [bind] in *. exact (IH _ _ _ _ H).
  - cbn [app] in H. rewrite run_Tick in *.
    destruct (run (fst (flush p)) (r ++ s2)) as [ [p2 outs2] | | ] eqn:E;
      try discriminate H.
    cbn [bind fst snd] in H. injection H as <- _.
    apply IH in E as (p1 & outs1 & outs3 & E1 & E2).
    rewrite E1. cbn [bind fst snd]. eauto.
Qed.

(** X17.  Whatever is scheduled and flushed, starting from the empty
    [pendingUpdates], in a run in which every call of [scheduleUpdate]
    returned no tenant occurs twice in [pendingUpdates], and a tenant once
    scheduled stays in it. *)
Theorem pendingUpdates_keys (steps : list step) :
  (forall p outs, run [] steps = Done (p, outs) -> distinct (map fst p) = true)
  /\ (forall u t d more p outs,
        run [] (steps ++ Enqueue u t d :: more) = Done (p, outs) ->
        In u (map fst p)).
Proof.
  split.
  - intros p outs H. eapply run_distinct; [ | exact H ]. reflexivity.
  - intros u t d more p outs H.
    apply run_app in H as (p1 & outs1 & outs2 & _ & H).
    cbn [run] in H. destruct (scheduleUpdate p1 u t d) as [ p2 | | ] eqn:E;
      try discriminate H.
    cbn [bind] in H. eapply run_keeps; [ | exact H ].
    apply (scheduleUpdate_keys _ _ _ _ _ u E). left. reflexivity.
Qed.

End MoreFlush.

(** ** More on [diffObjects] *)








(** ** More on the handlers of part_000 and part_001 *)






Lemma replace_field_stored name stored supplied :
  fst (Snapshot.replace_field name stored supplied)
  = match supplied with
    | Some m => if truthy (Some m) then m else stored
    | None => stored
    end.
Proof.
  unfold Snapshot.replace_field. destruct supplied as [ m | ]; [ | reflexivity ].
  destruct (truthy (Some m)); [ | reflexivity ]. cbn [andb].
  destruct (stringify_eqb (Some m) (Some stored)) eqn:E; [ | reflexivity ].
  apply stringify_eqb_eq in E. injection E as ->. reflexivity.
Qed.

(** X20.  In part_001 [publish-update] stores a supplied truthy [matchData]
    or [overlays] in place of the stored one, keeps a field that is missing
    or falsy, and keeps the wagon data; it enqueues nothing exactly when no
    stored field changed. *)
Theorem snapshot_publish_update_replaces
    (sv : Batch.server) (now : timestamp) (payload : option value)
    (sv' : Batch.server) :
  Snapshot.publish_update sv now payload = Done sv' ->
  exists key,
    keyFor (own payload "userId") = Done key
    /\ let prev := default (Batch.fresh now) (Batch.state sv !! key) in
       let stored (field : string) (old : value) :=
         match own payload field with
         | Some m => if truthy (Some m) then m else old
         | None => old
         end in
       Batch.state sv' !! key
       = Some (Batch.mkDocument (stored "matchData" (Batch.matchData prev))
                 (stored "overlays" (Batch.overlays prev))
                 (Batch.wagonData prev) now)
       /\ (Batch.pendingUpdates sv' = Batch.pendingUpdates sv
           <-> stored "matchData" (Batch.matchData prev) = Batch.matchData prev
               /\ stored "overlays" (Batch.overlays prev) = Batch.overlays prev).
Proof.
  intros H.
  apply snapshot_update_run in H as (pl & -> & _ & H).
  apply snapshot_update_done in H as (key & Hk & Hst & Hp).
  exists key. split; [ exact Hk | ]. cbv zeta in *.
  set (prev := default (Batch.fresh now) (Batch.state sv !! key)) in *.
  rewrite Hst, lookup_insert_eq, !replace_field_stored. split; [ reflexivity | ].
  pose proof (replace_field_changed "matchData" (Batch.matchData prev)
                (own (Some pl) "matchData")) as Hm.
  pose proof (replace_field_changed "overlays" (Batch.overlays prev)
                (own (Some pl) "overlays")) as Ho.
  rewrite replace_field_stored in Hm, Ho. rewrite <- Hm, <- Ho.
  destruct (snd (Snapshot.replace_field "matchData" _ _)) as [ | c1 r1 ] eqn:E1;
    destruct (snd (Snapshot.replace_field "overlays" _ _)) as [ | c2 r2 ] eqn:E2;
    cbn [app] in Hp; try tauto.
  all: split; [ intros Hq; exfalso | intros [? ?]; discriminate ].
  all: apply (scheduleUpdate_queue _ _ _ _ _ key) in Hp.
  all: rewrite String.eqb_refl, Hq in Hp.
  all: apply (f_equal (@length _)) in Hp; rewrite length_app in Hp; simpl in Hp; lia.
Qed.

Lemma snapshot_publish_update_replaces_witness :
  exists key,
    keyFor (own (Some (VObj [("userId", VStr "t"); ("matchData", VObj [("b", VNum 2)])]))
              "userId") = Done key
    /\ (<["t" := Batch.mkDocument (VObj [("b", VNum 2)]) (VObj []) (VObj []) 2%Z]>
          (<["t" := Batch.mkDocument (VObj [("a", VNum 1)]) (VObj []) (VObj []) 1%Z]> ∅)
        : gmap string Batch.Document) !! key
       = Some (Batch.mkDocument (VObj [("b", VNum 2)]) (VObj []) (VObj []) 2%Z).
Proof.
  destruct (snapshot_publish_update_replaces
              (Batch.mkServer
                 (<["t" := Batch.mkDocument (VObj [("a", VNum 1)]) (VObj []) (VObj [])
                             1%Z]> ∅) [])
              2%Z (Some (VObj [("userId", VStr "t");
                               ("matchData", VObj [("b", VNum 2)])]))
              (Batch.mkServer
                 (<["t" := Batch.mkDocument (VObj [("b", VNum 2)]) (VObj []) (VObj []) 2%Z]>
                    (<["t" := Batch.mkDocument (VObj [("a", VNum 1)]) (VObj []) (VObj [])
                                1%Z]> ∅))
                 [("t", [Coalescer.mkUpdate "update"
                           (VObj [("matchData", VObj [("b", VNum 2)])])])]))
    as (key & Hk & H & _).
  - vm_compute. reflexivity.
  - exists key. split; [ exact Hk | ]. injection Hk as <-. exact H.
Defined.








(** ** What a publish stores without telling *)

(** X23.  In index.js (second revision), for a tenant key [keyFor] can
    compute, a [publish-update] whose [matchData] is no mapping ([null], a
    scalar or a sequence) and that has no [overlays] stores that value as the
    match data and emits nothing: the subscribers are not told. *)
Theorem publish_update_scalar_matchData_is_silent
    (state : gmap string Patch.Document) (now : timestamp)
    (props : list (string * value)) (m : value) (k : string) :
  assoc "matchData" props = Some m ->
  mapping (Some m) = false ->
  assoc "overlays" props = None ->
  keyFor (assoc "userId" props) = Done k ->
  exists state',
    Patch.publish_update state now (Some (VObj props)) = Done (state', [])
    /\ Patch.matchData <$> (state' !! k) = Some m.
Proof.
  intros Hm Hplain Ho Hk. unfold Patch.publish_update. cbn [from_option id].
  rewrite !own_obj, Hm, Ho, Hk. cbn [bind].
  eexists. split.
  - destruct m; try discriminate Hplain; reflexivity.
  - rewrite lookup_insert_eq. reflexivity.
Qed.

Lemma publish_update_scalar_matchData_is_silent_witness :
  exists state',
    Patch.publish_update
      (<["t" := Patch.mkDocument (VObj [("over", VNum 3)]) (VObj []) (VArr []) None]> ∅)
      2%Z (Some (VObj [("userId", VStr "t"); ("matchData", VNull)]))
    = Done (state', [])
    /\ Patch.matchData <$> (state' !! "t") = Some VNull.
Proof.
  exact (publish_update_scalar_matchData_is_silent
           (<["t" := Patch.mkDocument (VObj [("over", VNum 3)]) (VObj []) (VArr []) None]> ∅)
           2%Z [("userId", VStr "t"); ("matchData", VNull)] VNull "t"
           eq_refl eq_refl eq_refl eq_refl).
Defined.

(** ** Joining without a tenant *)

(** X24.  With a payload that is missing, [null] or otherwise falsy, or that
    names no tenant, [join] returns and the caller joins the room [default]:
    in index.js it is sent the stored document of [default] or the read
    default and nothing is stored, in part_000 the document of [default] is
    created when there is none. *)
Theorem join_without_tenant :
  (forall (state : gmap string Patch.Document) payload,
      truthy payload = false \/ truthy (own payload "userId") = false ->
      Patch.join state payload
      = Done (state, "default", default Patch.read_default (state !! "default")))
  /\ (forall (state : gmap string Batch.Document) now userId,
        truthy userId = false ->
        Batch.join state now userId
        = Done (Batch.ensure state "default" now, "default",
                default (Batch.fresh now) (state !! "default"))).
Proof.
  split.
  - intros state payload H. unfold Patch.join.
    assert (keyFor (if truthy payload then own payload "userId" else payload)
            = Done "default") as ->; [ | reflexivity ].
    apply keyFor_falsy. destruct (truthy payload) eqn:E; [ | exact E ].
    destruct H as [H | H]; [ discriminate | exact H ].
  - intros state now userId H. unfold Batch.join. rewrite (keyFor_falsy _ H).
    cbn [bind]. rewrite ensure_lookup. reflexivity.
Qed.

Lemma join_without_tenant_witness :
  Patch.join ∅ (Some VNull) = Done (∅, "default", Patch.read_default).
Proof.
  exact (proj1 join_without_tenant ∅ (Some VNull) (or_introl eq_refl)).
Defined.

(** ** When a handler throws *)

(** X25.  [scheduleUpdate] throws a [TypeError] for a tenant key that is a
    name of [Object.prototype] and has no queue of its own, before anything
    is queued; in every other case it returns, having appended the entry to
    the tenant's queue and left the other queues as they were. *)
Theorem scheduleUpdate_queues_or_throws :
  (forall (p : Coalescer.pending) u t d,
      object_member u = true -> assoc u p = None ->
      Coalescer.scheduleUpdate p u t d
      = Throw "TypeError: pendingUpdates[userId].push is not a function")
  /\ (forall (p : Coalescer.pending) u t d,
        object_member u = false \/ assoc u p <> None ->
        exists p',
          Coalescer.scheduleUpdate p u t d = Done p'
          /\ default [] (assoc u p')
             = default [] (assoc u p) ++ [Coalescer.mkUpdate t d]
          /\ (forall k, k <> u -> assoc k p' = assoc k p)).
Proof.
  split.
  - intros p u t d Hu Hp. unfold Coalescer.scheduleUpdate, Coalescer.queue_of.
    rewrite Hp, Hu. reflexivity.
  - intros p u t d H.
    assert (exists p', Coalescer.scheduleUpdate p u t d = Done p') as (p' & E).
    { pose proof (scheduleUpdate_cases p u t d) as Hc.
      destruct (assoc u p) as [ queue | ]; [ eauto | ].
      destruct H as [H | H]; [ | congruence ]. rewrite H in Hc. eauto. }
    exists p'. split; [ exact E | ]. split.
    + rewrite (scheduleUpdate_queue _ _ _ _ _ u E), String.eqb_refl. reflexivity.
    + intros k Hk. apply scheduleUpdate_done in E. subst p'.
      apply assoc_assign_ne. congruence.
Qed.

Lemma scheduleUpdate_queues_or_throws_witness :
  Coalescer.scheduleUpdate [] "constructor" "update" VNull
  = Throw "TypeError: pendingUpdates[userId].push is not a function".
Proof.
  apply (proj1 scheduleUpdate_queues_or_throws [] "constructor" "update" VNull);
    reflexivity.
Defined.

(** X26.  When [keyFor] throws for the [userId] of a payload, as it does for
    a mapping with a member [toString], every publish handler and every
    [join] throws that error. *)
Theorem handlers_throw_with_keyFor
    (props : list (string * value)) (msg : string) (now : timestamp) :
  keyFor (assoc "userId" props) = Throw msg ->
  (forall state, Patch.publish_update state now (Some (VObj props)) = Throw msg)
  /\ (forall state, Patch.publish_wagon state now (Some (VObj props)) = Throw msg)
  /\ (forall state, Relay.publish_update state now (Some (VObj props)) = Throw msg)
  /\ (forall state, Relay.publish_wagon state now (Some (VObj props)) = Throw msg)
  /\ (forall state, Patch.join state (Some (VObj props)) = Throw msg)
  /\ (forall sv, Batch.publish_update sv now (Some (VObj props)) = Throw msg)
  /\ (forall sv, Batch.publish_wagon sv now (Some (VObj props)) = Throw msg)
  /\ (forall sv, Snapshot.publish_update sv now (Some (VObj props)) = Throw msg)
  /\ (forall state, Batch.join state now (assoc "userId" props) = Throw msg).
Proof.
  intros Hk. repeat split; intros s.
  - unfold Patch.publish_update. cbn [from_option id]. rewrite !own_obj, Hk. reflexivity.
  - unfold Patch.publish_wagon. cbn [from_option id]. rewrite !own_obj, Hk. reflexivity.
  - unfold Relay.publish_update. cbn [from_option id]. rewrite !own_obj, Hk. reflexivity.
  - unfold Relay.publish_wagon. cbn [from_option id]. rewrite !own_obj, Hk. reflexivity.
  - unfold Patch.join. cbn [truthy]. rewrite own_obj, Hk. reflexivity.
  - cbn [Batch.publish_update]. unfold Batch.update_body. rewrite own_obj, Hk. reflexivity.
  - cbn [Batch.publish_wagon]. unfold Batch.wagon_body. rewrite own_obj, Hk. reflexivity.
  - cbn [Snapshot.publish_update]. unfold Snapshot.update_body. rewrite own_obj, Hk.
    reflexivity.
  - unfold Batch.join. rewrite Hk. reflexivity.
Qed.

Lemma handlers_throw_with_keyFor_witness :
  Patch.publish_wagon ∅ 1%Z
    (Some (VObj [("userId", VObj [("toString", VNum 1)]); ("wagonData", VArr [])]))
  = Throw "TypeError: Cannot convert object to primitive value".
Proof.
  exact (proj1 (proj2 (handlers_throw_with_keyFor
                         [("userId", VObj [("toString", VNum 1)]); ("wagonData", VArr [])]
                         "TypeError: Cannot convert object to primitive value" 1%Z
                         eq_refl)) ∅).
Defined.
